(** * A shallow embedding of [snake.py]

    The game state of the Python program is embedded as records over [Z]
    (Python integers) and lists of integer pairs (the grid cells).  Mutation
    of the [Snake] and [Food] objects becomes explicit state passing, Python
    exceptions and the unbounded sampling loop become constructors of
    [result], and the [random] module becomes a stream of raw draws that is
    read through a cursor. *)

From Stdlib Require Import ZArith List Bool Lia.
Import ListNotations.
Open Scope Z_scope.

(** ** Constants of the module *)

Definition SCREEN_WIDTH : Z := 800.
Definition SCREEN_HEIGHT : Z := 600.
Definition GRID_SIZE : Z := 20.

Definition GRID_WIDTH : Z := SCREEN_WIDTH / GRID_SIZE.
Definition GRID_HEIGHT : Z := SCREEN_HEIGHT / GRID_SIZE.

Definition INITIAL_FPS : Z := 10.
Definition FPS_INCREASE_RATE : Z := 5.

Definition Color : Type := Z * Z * Z.

Definition SNAKE_COLORS : list Color :=
  [ (0, 255, 0); (0, 200, 255); (255, 255, 0); (255, 0, 255);
    (0, 255, 255); (255, 165, 0); (138, 43, 226); (255, 105, 180) ].

(** A grid cell and a direction are both Python 2-tuples of integers. *)
Definition Cell : Type := Z * Z.
Definition Vec : Type := Z * Z.

Definition UP : Vec := (0, -1).
Definition DOWN : Vec := (0, 1).
Definition LEFT : Vec := (-1, 0).
Definition RIGHT : Vec := (1, 0).

(** ** Outcomes of a call

    [Raise] is an uncaught Python exception; [Diverge] is what a loop with
    no exit condition met yet yields when the fuel of the model runs out. *)

Inductive exn : Type := IndexError.

Inductive result (A : Type) : Type :=
| Ok (a : A)
| Raise (e : exn)
| Diverge.

Arguments Ok {A} a.
Arguments Raise {A} e.
Arguments Diverge {A}.

Definition bind {A B : Type} (r : result A) (k : A -> result B) : result B :=
  match r with
  | Ok a => k a
  | Raise e => Raise e
  | Diverge => Diverge
  end.

Notation "x <- r ;; k" := (bind r (fun x => k))
  (at level 61, r at next level, right associativity).

(** ** Tuple comparison and list membership ([==] and [in]) *)

Definition cell_eqb (a b : Cell) : bool :=
  (fst a =? fst b) && (snd a =? snd b).

Definition cell_in (c : Cell) (l : list Cell) : bool :=
  existsb (cell_eqb c) l.

Definition in_grid (c : Cell) : bool :=
  (0 <=? fst c) && (fst c <? GRID_WIDTH) && (0 <=? snd c) && (snd c <? GRID_HEIGHT).

(** ** class Snake *)

Record Snake : Type := mkSnake {
  positions : list Cell;
  direction : Vec;
  next_direction : option Vec;
  score : Z;
  color_index : Z;
  grow_pending : Z
}.

Definition get_head_position (s : Snake) : result Cell :=
  match positions s with
  | [] => Raise IndexError
  | h :: _ => Ok h
  end.

(** [(d[0] * -1, d[1] * -1)] *)
Definition negate (d : Vec) : Vec := (fst d * -1, snd d * -1).

(** First statement of [update]: adopt the buffered direction unless it is
    the negation of the current one.  A 2-tuple is truthy, [None] is not. *)
Definition turn (s : Snake) : Snake :=
  match next_direction s with
  | Some nd =>
      if negb (cell_eqb (negate nd) (direction s))
      then mkSnake (positions s) nd None (score s) (color_index s) (grow_pending s)
      else s
  | None => s
  end.

Definition step_cell (head : Cell) (d : Vec) : Cell :=
  (fst head + fst d, snd head + snd d).

(** The last statements of [update]: insert at index 0, then either count
    one pending growth down or pop the tail. *)
Definition move_snake (s : Snake) (new_head_pos : Cell) : Snake :=
  let ps := new_head_pos :: positions s in
  if 0 <? grow_pending s
  then mkSnake ps (direction s) (next_direction s) (score s) (color_index s)
               (grow_pending s - 1)
  else mkSnake (removelast ps) (direction s) (next_direction s) (score s)
               (color_index s) (grow_pending s).

(** [update] returns the game-over flag and the snake as it left it. *)
Definition update (s : Snake) : result (bool * Snake) :=
  let s1 := turn s in
  head <- get_head_position s1 ;;
  let new_head_pos := step_cell head (direction s1) in
  if negb (in_grid new_head_pos) then Ok (true, s1)
  else if cell_in new_head_pos (positions s1) then
    if cell_eqb new_head_pos (last (positions s1) head) && (grow_pending s1 =? 0)
    then Ok (false, move_snake s1 new_head_pos)
    else Ok (true, s1)
  else Ok (false, move_snake s1 new_head_pos).

Definition grow (s : Snake) : Snake :=
  let score' := score s + 1 in
  let color' :=
    if (0 <? score') && (score' mod 10 =? 0)
    then (color_index s + 1) mod Z.of_nat (length SNAKE_COLORS)
    else color_index s in
  mkSnake (positions s) (direction s) (next_direction s) score' color'
          (grow_pending s + 1).

Definition change_direction (s : Snake) (new_direction : Vec) : Snake :=
  mkSnake (positions s) (direction s) (Some new_direction) (score s)
          (color_index s) (grow_pending s).

(** [SNAKE_COLORS[i]]: a negative index counts from the end, an index out
    of range raises. *)
Definition get_color (s : Snake) : result Color :=
  let n := Z.of_nat (length SNAKE_COLORS) in
  let i := if color_index s <? 0 then color_index s + n else color_index s in
  if (0 <=? i) && (i <? n)
  then match nth_error SNAKE_COLORS (Z.to_nat i) with
       | Some c => Ok c
       | None => Raise IndexError
       end
  else Raise IndexError.

(** ** State of [Food] and of the session *)

Record Food : Type := mkFood { position : Cell }.

Inductive key : Type :=
| K_r | K_q | K_UP | K_DOWN | K_LEFT | K_RIGHT
| K_other (code : Z).

Inductive event : Type :=
| QUIT
| KEYDOWN (k : key)
| OTHER_EVENT.

(** The local variables of [main] that outlive an iteration, and the
    cursor of the generator. *)
Record Game : Type := mkGame {
  snake : Snake;
  food : Food;
  game_over : bool;
  running : bool;
  cursor : nat
}.

(** ** The [random] module

    The generator is a stream of raw draws; a call consumes the draw under
    the cursor and advances it.  [randint a b] lands in [a .. b] and
    [choice] indexes its list, which is what the library documents. *)

Section Random.

Variable entropy : nat -> Z.

Definition randint (a b : Z) (cur : nat) : Z * nat :=
  (a + entropy cur mod (b - a + 1), S cur).

Definition choice {A : Type} (l : list A) (cur : nat) : result (A * nat) :=
  match nth_error l (Z.to_nat (entropy cur mod Z.of_nat (length l))) with
  | Some x => Ok (x, S cur)
  | None => Raise IndexError
  end.

(** [Snake.reset], which [Snake.__init__] calls: every field is assigned
    anew, so the previous snake is not an input. *)
Definition reset (cur : nat) : result (Snake * nat) :=
  dc <- choice [UP; DOWN; LEFT; RIGHT] cur ;;
  Ok (mkSnake [(GRID_WIDTH / 2, GRID_HEIGHT / 2)] (fst dc) (Some (fst dc)) 0 0 0,
      snd dc).

(** ** class Food *)

(** The tuple built in the body of the sampling loop. *)
Definition sample (cur : nat) : Cell * nat :=
  let rx := randint 0 (GRID_WIDTH - 1) cur in
  let ry := randint 0 (GRID_HEIGHT - 1) (snd rx) in
  ((fst rx, fst ry), snd ry).

(** [while True: ... break]: one unit of fuel per pass of the loop. *)
Fixpoint randomize_position (fuel : nat) (snake_positions : list Cell)
         (cur : nat) : result (Food * nat) :=
  match fuel with
  | O => Diverge
  | S fuel' =>
      let sc := sample cur in
      if negb (cell_in (fst sc) snake_positions)
      then Ok (mkFood (fst sc), snd sc)
      else randomize_position fuel' snake_positions (snd sc)
  end.

Definition get_position (f : Food) : Cell := position f.

(** [Food.__init__]: the dummy position is overwritten at once. *)
Definition Food_init (fuel : nat) (cur : nat) : result (Food * nat) :=
  randomize_position fuel [] cur.

(** ** main *)

Definition with_snake (g : Game) (s : Snake) : Game :=
  mkGame s (food g) (game_over g) (running g) (cursor g).

Definition stop_running (g : Game) : Game :=
  mkGame (snake g) (food g) (game_over g) false (cursor g).

(** Lines before the loop. *)
Definition main_init (fuel : nat) (cur : nat) : result Game :=
  sc <- reset cur ;;
  fc <- Food_init fuel (snd sc) ;;
  fc' <- randomize_position fuel (positions (fst sc)) (snd fc) ;;
  Ok (mkGame (fst sc) (fst fc') false true (snd fc')).

(** Body of [for event in pygame.event.get()]. *)
Definition handle_event (fuel : nat) (g : Game) (e : event) : result Game :=
  match e with
  | QUIT => Ok (stop_running g)
  | KEYDOWN k =>
      if game_over g then
        match k with
        | K_r =>
            sc <- reset (cursor g) ;;
            fc <- randomize_position fuel (positions (fst sc)) (snd sc) ;;
            Ok (mkGame (fst sc) (fst fc) false (running g) (snd fc))
        | K_q => Ok (stop_running g)
        | _ => Ok g
        end
      else
        match k with
        | K_UP => Ok (with_snake g (change_direction (snake g) UP))
        | K_DOWN => Ok (with_snake g (change_direction (snake g) DOWN))
        | K_LEFT => Ok (with_snake g (change_direction (snake g) LEFT))
        | K_RIGHT => Ok (with_snake g (change_direction (snake g) RIGHT))
        | _ => Ok g
        end
  | OTHER_EVENT => Ok g
  end.

Fixpoint handle_events (fuel : nat) (g : Game) (events : list event)
  : result Game :=
  match events with
  | [] => Ok g
  | e :: rest => g' <- handle_event fuel g e ;; handle_events fuel g' rest
  end.

(** The block under [if not game_over:]. *)
Definition game_logic (fuel : nat) (g : Game) : result Game :=
  if negb (game_over g) then
    r <- update (snake g) ;;
    let over := fst r in
    let s := snd r in
    if negb over then
      head <- get_head_position s ;;
      if cell_eqb head (get_position (food g)) then
        let s' := grow s in
        fc <- randomize_position fuel (positions s') (cursor g) ;;
        Ok (mkGame s' (fst fc) over (running g) (snd fc))
      else Ok (mkGame s (food g) over (running g) (cursor g))
    else Ok (mkGame s (food g) over (running g) (cursor g))
  else Ok g.

(** The value handed to [clock.tick]. *)
Definition current_fps (score : Z) : Z :=
  INITIAL_FPS + score / FPS_INCREASE_RATE.

(** One pass of [while running:]; drawing reads the state only.  The
    result pairs the state with the frame rate requested for the pass. *)
Definition main_iteration (fuel : nat) (events : list event) (g : Game)
  : result (Game * Z) :=
  g1 <- handle_events fuel g events ;;
  g2 <- game_logic fuel g1 ;;
  Ok (g2, current_fps (score (snake g2))).

(** The loop itself, fed with the events polled in each pass. *)
Fixpoint main_loop (fuel : nat) (frames : list (list event)) (g : Game)
  : result Game :=
  match frames with
  | [] => Ok g
  | events :: rest =>
      if running g then
        r <- main_iteration fuel events g ;;
        main_loop fuel rest (fst r)
      else Ok g
  end.

(** States of the session at the boundaries of loop passes. *)
Inductive reachable : Game -> Prop :=
| reach_init : forall fuel cur g,
    main_init fuel cur = Ok g -> reachable g
| reach_iter : forall fuel events g g' fps,
    reachable g -> running g = true ->
    main_iteration fuel events g = Ok (g', fps) -> reachable g'.

End Random.


(** ** Runs of [update] *)

(** [n] calls of [update] in a row, whatever flag each returns. *)
Fixpoint updates (n : nat) (s : Snake) : result Snake :=
  match n with
  | O => Ok s
  | S n' => r <- update s ;; updates n' (snd r)
  end.

(** [moves n s s']: [n] calls of [update] lead from [s] to [s'] and each
    returns [False] (no collision). *)
Inductive moves : nat -> Snake -> Snake -> Prop :=
| moves_O : forall s, moves O s s
| moves_S : forall n s s1 s2,
    update s = Ok (false, s1) -> moves n s1 s2 -> moves (S n) s s2.

(** [n] calls of [grow] in a row. *)
Fixpoint grows (n : nat) (s : Snake) : Snake :=
  match n with
  | O => s
  | S n' => grow (grows n' s)
  end.

(** The cell [update] computes as [new_head_pos], once the buffered
    direction has been considered. *)
Definition new_head (s : Snake) : result Cell :=
  head <- get_head_position (turn s) ;;
  Ok (step_cell head (direction (turn s))).

(** The four values the event loop ever submits. *)
Definition is_direction (d : Vec) : bool :=
  cell_eqb d UP || cell_eqb d DOWN || cell_eqb d LEFT || cell_eqb d RIGHT.

Definition arrow_key (k : key) : bool :=
  match k with
  | K_UP | K_DOWN | K_LEFT | K_RIGHT => true
  | _ => false
  end.

(** ** Sampling attempts of [randomize_position] *)

(** The cell drawn in pass [k] of the loop started at cursor [cur]: each
    pass consumes two draws. *)
Definition drawn (entropy : nat -> Z) (cur k : nat) : Cell :=
  fst (sample entropy (cur + 2 * k)%nat).

(** Every cell of the grid, column by column. *)
Definition all_cells : list Cell :=
  flat_map (fun x => map (fun y => (Z.of_nat x, Z.of_nat y))
                         (seq 0 (Z.to_nat GRID_HEIGHT)))
           (seq 0 (Z.to_nat GRID_WIDTH)).

Definition covers_grid (excluded : list Cell) : Prop :=
  forall c, in_grid c = true -> In c excluded.

(** ** Sample states *)

(** A body that closes a square: the head at (5,5) is about to step right
    onto the tail at (6,5). *)
Definition square_snake (pending : Z) : Snake :=
  mkSnake [(5, 5); (5, 6); (6, 6); (6, 5)] RIGHT None 3 0 pending.

(** A one-cell snake in the middle of the grid, heading right. *)
Definition centre_snake : Snake :=
  mkSnake [(20, 15)] RIGHT (Some RIGHT) 0 0 0.

(** A generator whose every draw is 0, and one that counts. *)
Definition zero_draws : nat -> Z := fun _ => 0.
Definition counting_draws : nat -> Z := fun n => Z.of_nat n.

(** A session in play: score 12, the food right in front of the head. *)
Definition playing_game : Game :=
  mkGame (mkSnake [(20, 15); (19, 15)] RIGHT None 12 1 0)
         (mkFood (21, 15)) false true 0.

(** The session [counting_draws] starts, and the state one pass later
    with the up arrow pressed. *)
Definition started_game : Game :=
  mkGame (mkSnake [(20, 15)] UP (Some UP) 0 0 0) (mkFood (3, 4)) false true 5.

Definition second_game : Game :=
  mkGame (mkSnake [(20, 14)] UP None 0 0 0) (mkFood (3, 4)) false true 5.

(** Draws that start the snake heading up with the food in the cell
    ahead, and the session two passes later, the food eaten. *)
Definition near_draws : nat -> Z :=
  fun n => match n with
           | 3%nat => 20
           | 4%nat => 14
           | _ => 0
           end.

Definition fed_game : Game :=
  mkGame (mkSnake [(20, 13); (20, 14)] UP None 1 0 0) (mkFood (0, 0))
         false true 7.

(** ** The invariant of the session *)

(** While the game is not over the food is not on the snake. *)
Definition food_free (g : Game) : Prop :=
  game_over g = false -> ~ In (position (food g)) (positions (snake g)).

(** ** Drawing

    A drawing function is embedded by the calls it makes on the surface,
    in order: [pygame.draw.line] and [pygame.draw.rect] with the colour
    and the geometry they are given. *)

Definition COLOR_GRID : Color := (40, 40, 40).
Definition COLOR_FOOD : Color := (255, 0, 0).

(** [pygame.Rect(left, top, width, height)] *)
Definition Rect : Type := (Z * Z * Z * Z)%type.

Inductive draw_cmd : Type :=
| Line (color : Color) (start_pos end_pos : Z * Z)
| FilledRect (color : Color) (rect : Rect).

(** [range(start, stop, step)] for a positive [step], the only use made
    of it: [start], [start + step], ... below [stop]. *)
Definition range_step (start stop step : Z) : list Z :=
  map (fun i => start + Z.of_nat i * step)
      (seq 0 (Z.to_nat ((stop - start + step - 1) / step))).

Definition draw_grid : list draw_cmd :=
  map (fun y => Line COLOR_GRID (0, y) (SCREEN_WIDTH, y))
      (range_step 0 SCREEN_HEIGHT GRID_SIZE) ++
  map (fun x => Line COLOR_GRID (x, 0) (x, SCREEN_HEIGHT))
      (range_step 0 SCREEN_WIDTH GRID_SIZE).

(** [pygame.Rect(pos[0] * GRID_SIZE, pos[1] * GRID_SIZE, GRID_SIZE,
    GRID_SIZE)], built by [draw_snake] and by [draw_food]. *)
Definition cell_rect (pos : Cell) : Rect :=
  (fst pos * GRID_SIZE, snd pos * GRID_SIZE, GRID_SIZE, GRID_SIZE).

(** [tuple(max(0, c-20) for c in snake_color)] *)
Definition darker (c : Color) : Color :=
  (Z.max 0 (fst (fst c) - 20), Z.max 0 (snd (fst c) - 20),
   Z.max 0 (snd c - 20)).

(** The loop of [draw_snake] from index [i] on. *)
Fixpoint draw_segments (snake_color : Color) (i : nat) (ps : list Cell)
  : list draw_cmd :=
  match ps with
  | [] => []
  | pos :: rest =>
      FilledRect (if (0 <? i)%nat then darker snake_color else snake_color)
                 (cell_rect pos)
        :: draw_segments snake_color (S i) rest
  end.

Definition draw_snake (s : Snake) : result (list draw_cmd) :=
  snake_color <- get_color s ;;
  Ok (draw_segments snake_color 0 (positions s)).

Definition draw_food (f : Food) : list draw_cmd :=
  [FilledRect COLOR_FOOD (cell_rect (get_position f))].

(** ** Vocabulary of the further properties *)

(** The direction the event loop submits for a key, if any. *)
Definition key_direction (k : key) : option Vec :=
  match k with
  | K_UP => Some UP
  | K_DOWN => Some DOWN
  | K_LEFT => Some LEFT
  | K_RIGHT => Some RIGHT
  | _ => None
  end.

(** The direction of the last arrow key of a batch of events, [acc] when
    there is none. *)
Fixpoint last_arrow (acc : option Vec) (events : list event) : option Vec :=
  match events with
  | [] => acc
  | KEYDOWN k :: rest =>
      last_arrow (match key_direction k with Some d => Some d | None => acc end)
                 rest
  | _ :: rest => last_arrow acc rest
  end.

Definition is_quit (e : event) : bool :=
  match e with QUIT => true | _ => false end.

Definition is_restart (e : event) : bool :=
  match e with KEYDOWN K_r => true | _ => false end.

(** Two rectangles share a pixel. *)
Definition rects_overlap (a b : Rect) : bool :=
  let '(al, at_, aw, ah) := a in
  let '(bl, bt, bw, bh) := b in
  (al <? bl + bw) && (bl <? al + aw) && (at_ <? bt + bh) && (bt <? at_ + ah).

(** A rectangle lies on the screen. *)
Definition on_screen (r : Rect) : bool :=
  let '(l, t, w, h) := r in
  (0 <=? l) && (l + w <=? SCREEN_WIDTH) && (0 <=? t) && (t + h <=? SCREEN_HEIGHT).


(** What every snake of a running session satisfies. *)
Record snake_ok (s : Snake) : Prop := mk_snake_ok {
  ok_body : positions s <> [];
  ok_grid : Forall (fun c => in_grid c = true) (positions s);
  ok_distinct : NoDup (positions s);
  ok_direction : is_direction (direction s) = true;
  ok_buffer : forall d, next_direction s = Some d -> is_direction d = true;
  ok_pending : 0 <= grow_pending s <= 1;
  ok_length : Z.of_nat (length (positions s)) = score s + 1 - grow_pending s;
  ok_color : color_index s = (score s / 10) mod 8
}.

Definition session_ok (g : Game) : Prop :=
  snake_ok (snake g) /\ in_grid (position (food g)) = true.

(** The snake of the session has at least one cell. *)
Definition has_body (g : Game) : Prop := positions (snake g) <> [].

(** * Properties *)

(** ** Reflection of the boolean tests *)

Lemma cell_eqb_eq (a b : Cell) : cell_eqb a b = true <-> a = b.
Proof.
  destruct a as [ax ay], b as [bx by']; unfold cell_eqb; simpl.
  rewrite andb_true_iff, !Z.eqb_eq.
  split; [intros [-> ->]; reflexivity | intros [= -> ->]; auto].
Qed.

Lemma cell_eqb_refl (a : Cell) : cell_eqb a a = true.
Proof. apply cell_eqb_eq; reflexivity. Qed.

Lemma cell_eqb_neq (a b : Cell) : cell_eqb a b = false <-> a <> b.
Proof.
  rewrite <- cell_eqb_eq. destruct (cell_eqb a b); split; congruence.
Qed.

Lemma cell_in_In (c : Cell) (l : list Cell) : cell_in c l = true <-> In c l.
Proof.
  unfold cell_in. rewrite existsb_exists. split.
  - intros [x [Hx Heq]]. apply cell_eqb_eq in Heq. subst; assumption.
  - intros H. exists c. split; [assumption | apply cell_eqb_refl].
Qed.

Lemma cell_in_not_In (c : Cell) (l : list Cell) :
  cell_in c l = false <-> ~ In c l.
Proof.
  rewrite <- cell_in_In. destruct (cell_in c l); split; congruence.
Qed.

Lemma negate_involutive (d : Vec) : negate (negate d) = d.
Proof. destruct d as [x y]; unfold negate; simpl. f_equal; lia. Qed.

(** ** What [turn] leaves alone *)

Lemma turn_positions (s : Snake) : positions (turn s) = positions s.
Proof.
  unfold turn. destruct (next_direction s) as [nd|]; [|reflexivity].
  destruct (negb _); reflexivity.
Qed.

Lemma turn_grow_pending (s : Snake) : grow_pending (turn s) = grow_pending s.
Proof.
  unfold turn. destruct (next_direction s) as [nd|]; [|reflexivity].
  destruct (negb _); reflexivity.
Qed.

Lemma turn_score (s : Snake) : score (turn s) = score s.
Proof.
  unfold turn. destruct (next_direction s) as [nd|]; [|reflexivity].
  destruct (negb _); reflexivity.
Qed.

Lemma turn_reversal (s : Snake) :
  next_direction s = Some (negate (direction s)) -> turn s = s.
Proof.
  intros H. unfold turn. rewrite H, negate_involutive, cell_eqb_refl.
  reflexivity.
Qed.

(** The buffer is emptied by [turn] only together with an adoption. *)
Lemma turn_buffer (s : Snake) :
  next_direction (turn s) <> next_direction s ->
  exists nd, next_direction s = Some nd /\ negate nd <> direction s /\
             direction (turn s) = nd /\ next_direction (turn s) = None.
Proof.
  unfold turn. destruct (next_direction s) as [nd|] eqn:E.
  - destruct (cell_eqb (negate nd) (direction s)) eqn:Q; simpl.
    + rewrite E. congruence.
    + intros _. exists nd. apply cell_eqb_neq in Q. auto.
  - rewrite E. congruence.
Qed.

(** ** The shape of a call of [update] *)

Lemma move_snake_positions (s : Snake) (c : Cell) :
  positions s <> [] ->
  positions (move_snake s c) =
    if 0 <? grow_pending s then c :: positions s
    else c :: removelast (positions s).
Proof.
  intros Hne. unfold move_snake.
  destruct (0 <? grow_pending s); simpl; [reflexivity|].
  destruct (positions s); [contradiction | reflexivity].
Qed.

Lemma move_snake_direction (s : Snake) (c : Cell) :
  direction (move_snake s c) = direction s /\
  next_direction (move_snake s c) = next_direction s.
Proof. unfold move_snake. destruct (0 <? grow_pending s); auto. Qed.

Lemma new_head_nonempty (s : Snake) (nh : Cell) :
  new_head s = Ok nh ->
  exists h t, positions s = h :: t /\ nh = step_cell h (direction (turn s)).
Proof.
  unfold new_head, get_head_position. rewrite turn_positions.
  destruct (positions s) as [|h t]; simpl; [discriminate|].
  intros [= <-]. eauto.
Qed.

Lemma last_nonempty (l : list Cell) (a b : Cell) :
  l <> [] -> last l a = last l b.
Proof.
  induction l as [|x l IH]; [contradiction|]. intros _.
  destruct l as [|y l]; [reflexivity|].
  change (last (y :: l) a = last (y :: l) b). apply IH. discriminate.
Qed.

Lemma update_unfold (s : Snake) (nh : Cell) :
  new_head s = Ok nh ->
  update s =
    if negb (in_grid nh) then Ok (true, turn s)
    else if cell_in nh (positions s) then
      if cell_eqb nh (last (positions s) nh) && (grow_pending s =? 0)
      then Ok (false, move_snake (turn s) nh)
      else Ok (true, turn s)
    else Ok (false, move_snake (turn s) nh).
Proof.
  intros H. destruct (new_head_nonempty s nh H) as (h & t & Hp & ->).
  unfold update, get_head_position.
  rewrite turn_positions, turn_grow_pending, Hp. cbn [bind].
  rewrite (last_nonempty (h :: t) h (step_cell h (direction (turn s))));
    [reflexivity | discriminate].
Qed.

(** ** Self collision and the vacating tail *)

(** C1.  When the new head (head plus the direction in force) is inside the
    grid and already in the body, [update] returns [True] (collision) in
    every case but one: the new head is the tail cell and [grow_pending] is
    0; then it returns [False] and the snake moves, the head entering the
    cell the tail leaves.  With the new head on the tail and growth pending
    it is a collision. *)
Theorem update_self_collision (s : Snake) (nh : Cell) :
  new_head s = Ok nh ->
  in_grid nh = true ->
  In nh (positions s) ->
  (nh = last (positions s) nh /\ grow_pending s = 0 ->
     update s = Ok (false, move_snake (turn s) nh) /\
     positions (move_snake (turn s) nh) = nh :: removelast (positions s)) /\
  (~ (nh = last (positions s) nh /\ grow_pending s = 0) ->
     update s = Ok (true, turn s)) /\
  (nh = last (positions s) nh -> 0 < grow_pending s ->
     update s = Ok (true, turn s)).
Proof.
  intros Hnh Hgrid Hin.
  pose proof (update_unfold s nh Hnh) as U.
  rewrite Hgrid in U. apply cell_in_In in Hin. rewrite Hin in U.
  cbn [negb] in U.
  destruct (new_head_nonempty s nh Hnh) as (h & t & Hp & _).
  assert (Hne : positions (turn s) <> [])
    by (rewrite turn_positions, Hp; discriminate).
  repeat split.
  - destruct H as [Ht Hg]. rewrite U, <- Ht, cell_eqb_refl, Hg. reflexivity.
  - destruct H as [_ Hg].
    rewrite (move_snake_positions _ nh Hne), turn_grow_pending, Hg,
      turn_positions.
    reflexivity.
  - intros Hno. rewrite U.
    destruct (cell_eqb nh (last (positions s) nh)) eqn:E1;
      [|reflexivity].
    destruct (grow_pending s =? 0) eqn:E2; [|reflexivity].
    exfalso. apply Hno. split.
    + apply cell_eqb_eq; assumption.
    + apply Z.eqb_eq; assumption.
  - intros _ Hg. rewrite U.
    replace (grow_pending s =? 0) with false
      by (symmetry; apply Z.eqb_neq; lia).
    rewrite andb_false_r. reflexivity.
Qed.

Lemma update_self_collision_witness :
  update (square_snake 0) =
    Ok (false, mkSnake [(6, 5); (5, 5); (5, 6); (6, 6)] RIGHT None 3 0 0) /\
  update (square_snake 1) = Ok (true, square_snake 1).
Proof.
  assert (Hin : In (6, 5) (positions (square_snake 0)))
    by (simpl; tauto).
  split.
  - exact (proj1 (proj1 (update_self_collision (square_snake 0) (6, 5)
                           eq_refl eq_refl Hin) (conj eq_refl eq_refl))).
  - exact (proj2 (proj2 (update_self_collision (square_snake 1) (6, 5)
                           eq_refl eq_refl Hin)) eq_refl eq_refl).
Defined.

(** ** Collisions are returned, and leave the body alone *)

(** C4.  When the new head is outside the grid, or overlaps the body
    otherwise than on a vacating tail, [update] returns [True] and the
    snake it leaves has the same body; whenever [update] returns [True] the
    body, the score and the pending growth are those it was called with;
    and [update] raises nothing on a snake whose body is not empty. *)
Theorem update_collision_keeps_body (s : Snake) :
  (forall nh, new_head s = Ok nh ->
     in_grid nh = false \/
     (In nh (positions s) /\
      ~ (nh = last (positions s) nh /\ grow_pending s = 0)) ->
     exists s', update s = Ok (true, s') /\ positions s' = positions s) /\
  (forall s', update s = Ok (true, s') ->
     positions s' = positions s /\ score s' = score s /\
     grow_pending s' = grow_pending s) /\
  (positions s <> [] -> exists flag s', update s = Ok (flag, s')).
Proof.
  repeat split.
  - intros nh Hnh Hcol. exists (turn s). split; [|apply turn_positions].
    rewrite (update_unfold s nh Hnh).
    destruct Hcol as [Hout | [Hin Hno]].
    + rewrite Hout. reflexivity.
    + destruct (negb (in_grid nh)); [reflexivity|].
      apply cell_in_In in Hin. rewrite Hin.
      destruct (cell_eqb nh (last (positions s) nh)) eqn:E1; [|reflexivity].
      destruct (grow_pending s =? 0) eqn:E2; [|reflexivity].
      exfalso. apply Hno. split.
      * apply cell_eqb_eq; assumption.
      * apply Z.eqb_eq; assumption.
  - revert H. unfold update, get_head_position.
    destruct (positions (turn s)) as [|h t]; [discriminate|]. cbn [bind].
    repeat match goal with
           | |- context [if ?b then _ else _] => destruct b
           end; intros [= <-]; apply turn_positions.
  - revert H. unfold update, get_head_position.
    destruct (positions (turn s)) as [|h t]; [discriminate|]. cbn [bind].
    repeat match goal with
           | |- context [if ?b then _ else _] => destruct b
           end; intros [= <-]; apply turn_score.
  - revert H. unfold update, get_head_position.
    destruct (positions (turn s)) as [|h t]; [discriminate|]. cbn [bind].
    repeat match goal with
           | |- context [if ?b then _ else _] => destruct b
           end; intros [= <-]; apply turn_grow_pending.
  - intros Hne. unfold update, get_head_position. rewrite turn_positions.
    destruct (positions s) as [|h t]; [contradiction|]. cbn [bind].
    repeat match goal with
           | |- context [if ?b then _ else _] => destruct b
           end; eauto.
Qed.

Lemma update_collision_keeps_body_witness :
  (exists s', update (mkSnake [(0, 0)] LEFT None 0 0 0) = Ok (true, s') /\
              positions s' = [(0, 0)]) /\
  (exists s', update (square_snake 1) = Ok (true, s') /\
              positions s' = [(5, 5); (5, 6); (6, 6); (6, 5)]).
Proof.
  split.
  - apply (proj1 (update_collision_keeps_body
                    (mkSnake [(0, 0)] LEFT None 0 0 0)) (-1, 0) eq_refl).
    left. reflexivity.
  - apply (proj1 (update_collision_keeps_body (square_snake 1))
             (6, 5) eq_refl).
    right. split; [simpl; tauto|]. intros [_ H]. discriminate H.
Defined.

(** ** Reversal requests *)

Lemma update_buffer (s : Snake) (flag : bool) (s' : Snake) :
  update s = Ok (flag, s') ->
  (s' = turn s \/ exists c, s' = move_snake (turn s) c) /\
  positions s <> [].
Proof.
  unfold update, get_head_position. rewrite turn_positions.
  destruct (positions s) as [|h t] eqn:Hp; [discriminate|]. cbn [bind].
  repeat match goal with
         | |- context [if ?b then _ else _] => destruct b
         end; intros [= <- <-]; split; eauto; discriminate.
Qed.

Lemma update_keeps_nonempty (s : Snake) (flag : bool) (s' : Snake) :
  update s = Ok (flag, s') -> positions s' <> [].
Proof.
  intros H. destruct (update_buffer s flag s' H) as [[-> | [c ->]] Hne].
  - rewrite turn_positions; assumption.
  - rewrite move_snake_positions by (rewrite turn_positions; assumption).
    destruct (0 <? grow_pending (turn s)); discriminate.
Qed.

Lemma update_total (s : Snake) :
  positions s <> [] -> exists flag s', update s = Ok (flag, s').
Proof.
  intros Hne. unfold update, get_head_position. rewrite turn_positions.
  destruct (positions s) as [|h t]; [contradiction|]. cbn [bind].
  repeat match goal with
         | |- context [if ?b then _ else _] => destruct b
         end; eauto.
Qed.

(** A rejected reversal stays rejected: one call of [update] keeps the
    direction and the buffered request. *)
Lemma update_reversal_step (s : Snake) (d : Vec) :
  positions s <> [] ->
  direction s = d -> next_direction s = Some (negate d) ->
  exists flag s', update s = Ok (flag, s') /\ positions s' <> [] /\
                  direction s' = d /\ next_direction s' = Some (negate d).
Proof.
  intros Hne Hd Hn.
  destruct (update_total s Hne) as (flag & s' & U).
  exists flag, s'. split; [assumption|].
  split; [eapply update_keeps_nonempty; eassumption|].
  assert (T : turn s = s) by (apply turn_reversal; rewrite Hd; assumption).
  destruct (update_buffer s flag s' U) as [[-> | [c ->]] _]; rewrite T.
  - auto.
  - destruct (move_snake_direction s c) as [-> ->]. auto.
Qed.

Lemma updates_reversal (n : nat) (s : Snake) (d : Vec) :
  positions s <> [] ->
  direction s = d -> next_direction s = Some (negate d) ->
  exists s', updates n s = Ok s' /\
             direction s' = d /\ next_direction s' = Some (negate d).
Proof.
  revert s. induction n as [|n IH]; intros s Hne Hd Hn.
  - exists s. auto.
  - destruct (update_reversal_step s d Hne Hd Hn)
      as (flag & s1 & U & Hne1 & Hd1 & Hn1).
    destruct (IH s1 Hne1 Hd1 Hn1) as (s' & Us & R).
    exists s'. split; [|assumption].
    cbn [updates]. rewrite U. exact Us.
Qed.

(** C2.  On a snake with a non-empty body, after [change_direction] with
    the exact opposite of the current direction, any number of calls of
    [update] (one, or more with no new submission) all return and leave
    [direction] as it was, the request still sitting in the buffer; it is
    never adopted.  And whenever a
    call of [update] changes the buffer, it has adopted the buffered
    direction, which was not the opposite of the current one, and has
    cleared the buffer. *)
Theorem reversal_never_adopted (s : Snake) (n : nat) :
  positions s <> [] ->
  (exists s', updates n (change_direction s (negate (direction s))) = Ok s' /\
              direction s' = direction s /\
              next_direction s' = Some (negate (direction s))) /\
  (forall t flag t', update t = Ok (flag, t') ->
     next_direction t' <> next_direction t ->
     exists nd, next_direction t = Some nd /\ negate nd <> direction t /\
                direction t' = nd /\ next_direction t' = None).
Proof.
  intros Hne. split.
  - destruct (updates_reversal n (change_direction s (negate (direction s)))
                (direction s) Hne eq_refl eq_refl) as (s' & U & Hd & Hn).
    eauto.
  - intros t flag t' U Hbuf.
    destruct (update_buffer t flag t' U) as [[-> | [c ->]] _].
    + apply turn_buffer; assumption.
    + destruct (move_snake_direction (turn t) c) as [Hd Hn].
      rewrite Hd, Hn in *. apply turn_buffer; assumption.
Qed.

Lemma reversal_never_adopted_witness :
  exists s', updates 3 (change_direction centre_snake LEFT) = Ok s' /\
             direction s' = RIGHT /\ next_direction s' = Some LEFT.
Proof.
  apply (proj1 (reversal_never_adopted centre_snake 3
                  ltac:(discriminate))).
Defined.

(** ** Growth *)

Lemma length_removelast_cons (h : Cell) (t : list Cell) :
  length (removelast (h :: t)) = length t.
Proof.
  revert h. induction t as [|x t IH]; intros h; [reflexivity|].
  change (S (length (removelast (x :: t))) = S (length t)).
  f_equal. apply IH.
Qed.

Lemma update_length (s s1 : Snake) :
  update s = Ok (false, s1) ->
  if 0 <? grow_pending s
  then length (positions s1) = S (length (positions s)) /\
       grow_pending s1 = grow_pending s - 1
  else length (positions s1) = length (positions s) /\
       grow_pending s1 = grow_pending s.
Proof.
  unfold update, get_head_position.
  rewrite turn_positions, turn_grow_pending.
  destruct (positions s) as [|h t] eqn:Hp; [discriminate|]. cbn [bind].
  assert (M : forall c s',
             Ok (false, move_snake (turn s) c) = Ok (false, s') ->
             if 0 <? grow_pending s
             then length (positions s') = S (length (h :: t)) /\
                  grow_pending s' = grow_pending s - 1
             else length (positions s') = length (h :: t) /\
                  grow_pending s' = grow_pending s).
  { intros c s' [= <-]. unfold move_snake.
    rewrite turn_grow_pending, turn_positions, Hp.
    destruct (0 <? grow_pending s); cbn [positions grow_pending].
    - split; reflexivity.
    - split; [|reflexivity].
      change (length (c :: removelast (h :: t)) = length (h :: t)).
      cbn [length]. f_equal. apply length_removelast_cons. }
  repeat match goal with
         | |- context [if ?b then Ok _ else _] => destruct b
         | |- context [if ?b then _ else Ok _] => destruct b
         end; try discriminate; apply M.
Qed.

Lemma moves_settled (n : nat) (s s' : Snake) :
  grow_pending s = 0 -> moves n s s' ->
  length (positions s') = length (positions s) /\ grow_pending s' = 0.
Proof.
  intros Hg Hm. induction Hm as [s | n s s1 s2 U _ IH]; [auto|].
  apply update_length in U. rewrite Hg in U. cbn in U.
  destruct U as [Hl Hg1]. rewrite <- Hl. apply IH. congruence.
Qed.

(** C3.  From a snake with no growth pending, one [grow] followed by [n]
    calls of [update] that all return [False], with [n] at least 1, leaves
    the body exactly one cell longer, whatever [n] is: the cell is gained
    in the first call and the length stays put in the later ones, the
    pending growth being back at 0. *)
Theorem growth_conservation (s s' : Snake) (n : nat) :
  grow_pending s = 0 ->
  (1 <= n)%nat ->
  moves n (grow s) s' ->
  length (positions s') = S (length (positions s)) /\ grow_pending s' = 0.
Proof.
  intros Hg Hn Hm. inversion Hm as [| m t s1 t' U Hrest]; subst; [lia|].
  apply update_length in U. cbn [grow grow_pending positions] in U.
  replace (0 <? grow_pending s + 1) with true in U
    by (symmetry; apply Z.ltb_lt; lia).
  destruct U as [Hl Hg1].
  destruct (moves_settled m s1 s' ltac:(lia) Hrest) as [Hl' Hg'].
  split; congruence.
Qed.

Lemma growth_conservation_witness :
  moves 2 (grow centre_snake)
        (mkSnake [(22, 15); (21, 15)] RIGHT None 1 0 0) /\
  length (positions (mkSnake [(22, 15); (21, 15)] RIGHT None 1 0 0)) =
    S (length (positions centre_snake)) /\
  grow_pending (mkSnake [(22, 15); (21, 15)] RIGHT None 1 0 0) = 0.
Proof.
  assert (M : moves 2 (grow centre_snake)
                    (mkSnake [(22, 15); (21, 15)] RIGHT None 1 0 0)).
  { apply (moves_S 1 _ (mkSnake [(21, 15); (20, 15)] RIGHT None 1 0 0));
      [reflexivity|].
    apply (moves_S 0 _ (mkSnake [(22, 15); (21, 15)] RIGHT None 1 0 0));
      [reflexivity|].
    apply moves_O. }
  split; [exact M|].
  exact (growth_conservation centre_snake _ 2 eq_refl (le_S 1 1 (le_n 1)) M).
Defined.

(** ** Score and colour *)

Lemma palette_size : Z.of_nat (length SNAKE_COLORS) = 8.
Proof. reflexivity. Qed.

Lemma grow_score (s : Snake) : score (grow s) = score s + 1.
Proof. reflexivity. Qed.

Lemma grow_color (s : Snake) :
  color_index (grow s) =
    if (0 <? score s + 1) && ((score s + 1) mod 10 =? 0)
    then (color_index s + 1) mod 8
    else color_index s.
Proof. reflexivity. Qed.

(** After [n] calls of [grow] from a fresh snake the score is [n] and the
    colour index is the number of tens in it, modulo the palette. *)
Lemma grows_from_zero (s : Snake) (n : nat) :
  score s = 0 -> color_index s = 0 ->
  score (grows n s) = Z.of_nat n /\
  color_index (grows n s) = (Z.of_nat n / 10) mod 8.
Proof.
  intros Hs Hc. induction n as [|n [IHs IHc]].
  - cbn [grows]. rewrite Hs, Hc. split; reflexivity.
  - cbn [grows]. rewrite grow_score, grow_color, IHs, IHc.
    split; [lia|].
    replace (Z.of_nat (S n)) with (Z.of_nat n + 1) by lia.
    destruct ((Z.of_nat n + 1) mod 10 =? 0) eqn:E.
    + replace (0 <? Z.of_nat n + 1) with true
        by (symmetry; apply Z.ltb_lt; lia).
      cbn [andb]. apply Z.eqb_eq in E.
      rewrite Z.add_mod_idemp_l by lia. f_equal.
      Z.div_mod_to_equations. lia.
    + rewrite andb_false_r. apply Z.eqb_neq in E. f_equal.
      Z.div_mod_to_equations. lia.
Qed.

(** C9.  A call of [grow] adds exactly 1 to the score, and the colour
    index becomes [(color_index + 1) mod 8] when the new score is positive
    and a multiple of 10, and is unchanged otherwise.  Growing [n] times
    from score 0 and colour 0 gives score [n] and colour 0 for [n] in 1..9,
    1 for 10..19, 2 for 20..29 and 3 at 30. *)
Theorem grow_score_and_color (s : Snake) :
  score (grow s) = score s + 1 /\
  (0 < score (grow s) /\ score (grow s) mod 10 = 0 ->
     color_index (grow s) = (color_index s + 1) mod 8) /\
  (~ (0 < score (grow s) /\ score (grow s) mod 10 = 0) ->
     color_index (grow s) = color_index s) /\
  (score s = 0 -> color_index s = 0 ->
   forall n : nat,
     score (grows n s) = Z.of_nat n /\
     ((1 <= n <= 9)%nat -> color_index (grows n s) = 0) /\
     ((10 <= n <= 19)%nat -> color_index (grows n s) = 1) /\
     ((20 <= n <= 29)%nat -> color_index (grows n s) = 2) /\
     (n = 30%nat -> color_index (grows n s) = 3)).
Proof.
  split; [reflexivity|]. split; [|split].
  - intros [Hpos Hmod]. rewrite grow_color. rewrite grow_score in Hpos, Hmod.
    apply Z.ltb_lt in Hpos. apply Z.eqb_eq in Hmod.
    rewrite Hpos, Hmod. reflexivity.
  - intros Hno. rewrite grow_color. rewrite grow_score in Hno.
    destruct (0 <? score s + 1) eqn:E1; [|reflexivity].
    destruct ((score s + 1) mod 10 =? 0) eqn:E2; [|reflexivity].
    exfalso. apply Hno. split.
    + apply Z.ltb_lt; assumption.
    + apply Z.eqb_eq; assumption.
  - intros Hs Hc n.
    destruct (grows_from_zero s n Hs Hc) as [Hsc Hcol].
    split; [assumption|]. rewrite Hcol.
    repeat split; intros Hn; Z.div_mod_to_equations; lia.
Qed.

Lemma grow_score_and_color_witness :
  color_index (grow (mkSnake [(3, 3)] UP None 9 0 0)) = 1 /\
  color_index (grow (mkSnake [(3, 3)] UP None 10 1 0)) = 1 /\
  color_index (grows 9 centre_snake) = 0 /\
  color_index (grows 10 centre_snake) = 1 /\
  color_index (grows 29 centre_snake) = 2 /\
  color_index (grows 30 centre_snake) = 3.
Proof.
  pose proof (grow_score_and_color (mkSnake [(3, 3)] UP None 9 0 0)) as A.
  pose proof (grow_score_and_color (mkSnake [(3, 3)] UP None 10 1 0)) as B.
  pose proof (proj2 (proj2 (proj2 (grow_score_and_color centre_snake)))
                eq_refl eq_refl) as G.
  split; [exact (proj1 (proj2 A) (conj eq_refl eq_refl))|].
  split; [apply (proj1 (proj2 (proj2 B))); intros [_ H]; discriminate H|].
  split; [apply (proj1 (proj2 (G 9%nat))); lia|].
  split; [apply (proj1 (proj2 (proj2 (G 10%nat)))); lia|].
  split; [apply (proj1 (proj2 (proj2 (proj2 (G 29%nat))))); lia|].
  exact (proj2 (proj2 (proj2 (proj2 (G 30%nat)))) eq_refl).
Defined.

(** ** Frame rate *)

(** C10.  The frame rate handed to the clock is [10 + floor(score / 5)]:
    it is 10 plus the unique [q] with [5 q <= score < 5 q + 5], it goes up
    by one exactly when the score reaches a multiple of 5, and it is the
    value every pass of the main loop computes from the score it ends
    with. *)
Theorem current_fps_formula (s : Z) :
  current_fps s = 10 + s / 5 /\
  (forall q, 5 * q <= s < 5 * q + 5 -> current_fps s = 10 + q) /\
  current_fps (s + 1) =
    (if (s + 1) mod 5 =? 0 then current_fps s + 1 else current_fps s) /\
  (forall entropy fuel events g g' fps,
     main_iteration entropy fuel events g = Ok (g', fps) ->
     score (snake g') = s -> fps = 10 + s / 5).
Proof.
  unfold current_fps, INITIAL_FPS, FPS_INCREASE_RATE.
  split; [reflexivity|]. split; [|split].
  - intros q Hq. Z.div_mod_to_equations. lia.
  - destruct ((s + 1) mod 5 =? 0) eqn:E.
    + apply Z.eqb_eq in E. Z.div_mod_to_equations. lia.
    + apply Z.eqb_neq in E. Z.div_mod_to_equations. lia.
  - intros entropy fuel events g g' fps. unfold main_iteration.
    destruct (handle_events entropy fuel g events) as [g1| |];
      cbn [bind]; try discriminate.
    destruct (game_logic entropy fuel g1) as [g2| |];
      cbn [bind]; try discriminate.
    intros [= <- <-] <-. reflexivity.
Qed.

Lemma current_fps_formula_witness :
  main_iteration counting_draws 3 [] playing_game =
    Ok (mkGame (mkSnake [(21, 15); (20, 15)] RIGHT None 13 1 1)
               (mkFood (0, 1)) false true 2, 12) /\
  12 = 10 + 13 / 5 /\ current_fps 13 = 10 + 2.
Proof.
  split; [reflexivity|]. split.
  - exact (proj2 (proj2 (proj2 (current_fps_formula 13)))
             counting_draws 3%nat [] playing_game _ 12 eq_refl eq_refl).
  - apply (proj1 (proj2 (current_fps_formula 13)) 2). lia.
Defined.

(** ** Food placement *)

Section Sampling.

Variable entropy : nat -> Z.

Lemma sample_cursor (cur : nat) : snd (sample entropy cur) = (cur + 2)%nat.
Proof. unfold sample, randint; cbn [fst snd]. lia. Qed.

Lemma sample_in_grid (cur : nat) : in_grid (fst (sample entropy cur)) = true.
Proof.
  unfold sample, randint, in_grid; cbn [fst snd].
  change (GRID_WIDTH - 1 - 0 + 1) with 40.
  change (GRID_HEIGHT - 1 - 0 + 1) with 30.
  change GRID_WIDTH with 40. change GRID_HEIGHT with 30.
  pose proof (Z.mod_pos_bound (entropy cur) 40 ltac:(lia)).
  pose proof (Z.mod_pos_bound (entropy (S cur)) 30 ltac:(lia)).
  rewrite !andb_true_iff, !Z.leb_le, !Z.ltb_lt. lia.
Qed.

Lemma drawn_shift (cur k : nat) :
  drawn entropy (snd (sample entropy cur)) k = drawn entropy cur (S k).
Proof.
  unfold drawn. rewrite sample_cursor. f_equal. f_equal. lia.
Qed.

Lemma drawn_first (cur : nat) : drawn entropy cur 0 = fst (sample entropy cur).
Proof. unfold drawn. f_equal. f_equal. lia. Qed.

(** A returned position is the first drawn cell that is not excluded. *)
Lemma randomize_position_ok (excluded : list Cell) (fuel : nat) :
  forall cur f cur',
    randomize_position entropy fuel excluded cur = Ok (f, cur') ->
    exists k, (k < fuel)%nat /\ position f = drawn entropy cur k /\
              cur' = (cur + 2 * S k)%nat /\
              ~ In (drawn entropy cur k) excluded /\
              forall j, (j < k)%nat -> In (drawn entropy cur j) excluded.
Proof.
  induction fuel as [|fuel IH]; intros cur f cur'; [discriminate|].
  cbn [randomize_position].
  destruct (cell_in (fst (sample entropy cur)) excluded) eqn:E; cbn [negb].
  - intros H. apply IH in H. destruct H as (k & Hk & Hp & Hc & Hfree & Hbusy).
    exists (S k). rewrite <- !drawn_shift.
    split; [lia|]. split; [assumption|]. split; [|split; [assumption|]].
    + rewrite Hc, sample_cursor. lia.
    + intros [|j] Hj.
      * rewrite drawn_first. apply cell_in_In; assumption.
      * rewrite <- drawn_shift. apply Hbusy. lia.
  - intros [= <- <-]. exists 0%nat. rewrite drawn_first.
    split; [lia|]. split; [reflexivity|]. split; [|split].
    + lia.
    + apply cell_in_not_In; assumption.
    + intros j Hj. lia.
Qed.

(** The call returns at the first free draw, and not before. *)
Lemma randomize_position_first_free (excluded : list Cell) (fuel : nat) :
  forall cur k,
    (forall j, (j < k)%nat -> In (drawn entropy cur j) excluded) ->
    ~ In (drawn entropy cur k) excluded ->
    randomize_position entropy fuel excluded cur =
      if (fuel <=? k)%nat then Diverge
      else Ok (mkFood (drawn entropy cur k), (cur + 2 * S k)%nat).
Proof.
  induction fuel as [|fuel IH]; intros cur k Hbusy Hfree; [reflexivity|].
  cbn [randomize_position]. destruct k as [|k].
  - rewrite drawn_first in Hfree. apply cell_in_not_In in Hfree.
    rewrite Hfree. cbn [negb Nat.leb].
    rewrite drawn_first, sample_cursor. do 2 f_equal; lia.
  - assert (B : cell_in (fst (sample entropy cur)) excluded = true).
    { apply cell_in_In. rewrite <- drawn_first. apply Hbusy. lia. }
    rewrite B. cbn [negb Nat.leb].
    rewrite (IH _ k).
    + rewrite drawn_shift, sample_cursor.
      destruct (fuel <=? k)%nat; [reflexivity|]. do 2 f_equal; lia.
    + intros j Hj. rewrite drawn_shift. apply Hbusy. lia.
    + rewrite drawn_shift. assumption.
Qed.

Lemma randomize_position_returns (excluded : list Cell) (k : nat) :
  forall cur,
    ~ In (drawn entropy cur k) excluded ->
    exists f cur', randomize_position entropy (S k) excluded cur = Ok (f, cur').
Proof.
  induction k as [|k IH]; intros cur Hfree; cbn [randomize_position].
  - rewrite drawn_first in Hfree. apply cell_in_not_In in Hfree.
    rewrite Hfree. cbn [negb]. eauto.
  - destruct (cell_in (fst (sample entropy cur)) excluded); cbn [negb];
      [|eauto].
    apply IH. rewrite drawn_shift. assumption.
Qed.

Lemma randomize_position_no_raise (excluded : list Cell) (fuel : nat) :
  forall cur e, randomize_position entropy fuel excluded cur <> Raise e.
Proof.
  induction fuel as [|fuel IH]; intros cur e; [discriminate|].
  cbn [randomize_position].
  destruct (negb _); [discriminate | apply IH].
Qed.

Lemma randomize_position_covered (excluded : list Cell) (fuel : nat) :
  covers_grid excluded ->
  forall cur, randomize_position entropy fuel excluded cur = Diverge.
Proof.
  intros Hcov. induction fuel as [|fuel IH]; intros cur; [reflexivity|].
  cbn [randomize_position].
  replace (cell_in (fst (sample entropy cur)) excluded) with true.
  - cbn [negb]. apply IH.
  - symmetry. apply cell_in_In, Hcov, sample_in_grid.
Qed.

End Sampling.

Lemma all_cells_cover : covers_grid all_cells.
Proof.
  intros [x y] H. unfold in_grid in H; cbn [fst snd] in H.
  rewrite !andb_true_iff, !Z.leb_le, !Z.ltb_lt in H.
  unfold all_cells. apply in_flat_map.
  exists (Z.to_nat x). split.
  - apply in_seq. change GRID_WIDTH with 40 in *. lia.
  - apply in_map_iff. exists (Z.to_nat y). split.
    + f_equal; lia.
    + apply in_seq. change GRID_HEIGHT with 30 in *. lia.
Qed.

(** A stream whose draws at [cur] and [cur + 1] are the coordinates of a
    chosen cell makes that cell the first sample. *)
Lemma sample_chosen (c : Cell) (cur : nat) :
  in_grid c = true ->
  fst (sample (fun n => if Nat.eqb n cur then fst c else snd c) cur) = c.
Proof.
  destruct c as [x y]. unfold in_grid, sample, randint; cbn [fst snd].
  rewrite !andb_true_iff, !Z.leb_le, !Z.ltb_lt.
  change GRID_WIDTH with 40. change GRID_HEIGHT with 30. intros H.
  rewrite Nat.eqb_refl.
  replace (Nat.eqb (S cur) cur) with false
    by (symmetry; apply Nat.eqb_neq; lia).
  change (40 - 1 - 0 + 1) with 40. change (30 - 1 - 0 + 1) with 30.
  rewrite !Z.mod_small by lia. reflexivity.
Qed.

(** C6.  Whenever [randomize_position] returns, whatever the draws and
    however many passes it took, the position it leaves is a cell of the
    grid that is not in the list it was given.  It does return as soon as
    one drawn cell is free, and every free cell of the grid is the result
    for some draws, so a list that leaves a cell free lets it return. *)
Theorem randomize_position_avoids (excluded : list Cell) (cur : nat) :
  (forall entropy fuel f cur',
     randomize_position entropy fuel excluded cur = Ok (f, cur') ->
     in_grid (position f) = true /\ ~ In (position f) excluded) /\
  (forall entropy k,
     ~ In (drawn entropy cur k) excluded ->
     exists f cur',
       randomize_position entropy (S k) excluded cur = Ok (f, cur')) /\
  (forall c,
     in_grid c = true -> ~ In c excluded ->
     exists entropy cur',
       randomize_position entropy 1 excluded cur = Ok (mkFood c, cur')).
Proof.
  split; [|split].
  - intros entropy fuel f cur' H.
    apply randomize_position_ok in H.
    destruct H as (k & _ & Hp & _ & Hfree & _). rewrite Hp. split.
    + apply sample_in_grid.
    + assumption.
  - intros entropy k. apply randomize_position_returns.
  - intros c Hg Hfree.
    exists (fun n => if Nat.eqb n cur then fst c else snd c).
    cbn [randomize_position]. rewrite (sample_chosen c cur Hg).
    apply cell_in_not_In in Hfree. rewrite Hfree. cbn [negb]. eauto.
Qed.

Lemma randomize_position_avoids_witness :
  randomize_position counting_draws 2 [(0, 1)] 0 = Ok (mkFood (2, 3), 4%nat) /\
  in_grid (2, 3) = true /\ ~ In (2, 3) [(0, 1)].
Proof.
  split; [reflexivity|].
  exact (proj1 (randomize_position_avoids [(0, 1)] 0)
           counting_draws 2%nat (mkFood (2, 3)) 4%nat eq_refl).
Defined.

(** C7, as the claim has it, fails: with every cell of the grid excluded
    the sampling loop has not returned after any number of passes, and
    nothing is raised. *)
Lemma relocation_bound_counterexample :
  covers_grid all_cells /\
  (forall fuel, randomize_position zero_draws fuel all_cells 0 = Diverge).
Proof.
  split; [apply all_cells_cover|].
  intros fuel. apply randomize_position_covered, all_cells_cover.
Qed.

(** Draws that give the cell (0,0) in the first [n] passes after [cur] and
    the cell (1,1) afterwards. *)
Lemma late_draws (cur n : nat) :
  let entropy := fun i => if (i <? cur + 2 * n)%nat then 0 else 1 in
  (forall j, (j < n)%nat -> drawn entropy cur j = (0, 0)) /\
  drawn entropy cur n = (1, 1).
Proof.
  intros entropy. unfold drawn, sample, randint, entropy; cbn [fst snd].
  split.
  - intros j Hj.
    replace (cur + 2 * j <? cur + 2 * n)%nat with true
      by (symmetry; apply Nat.ltb_lt; lia).
    replace (S (cur + 2 * j) <? cur + 2 * n)%nat with true
      by (symmetry; apply Nat.ltb_lt; lia).
    reflexivity.
  - replace (cur + 2 * n <? cur + 2 * n)%nat with false
      by (symmetry; apply Nat.ltb_ge; lia).
    replace (S (cur + 2 * n) <? cur + 2 * n)%nat with false
      by (symmetry; apply Nat.ltb_ge; lia).
    reflexivity.
Qed.

(** C7, amended.  [randomize_position] has no bound on its sampling
    passes and no error of its own: it never raises; it returns in pass
    [k + 1], and in no earlier one, when the first [k] cells drawn are
    excluded and the next one is free; for every [n] there are draws for
    which it needs more than [n] passes and then returns; and when the
    excluded list covers the grid it never returns. *)
Theorem randomize_position_unbounded (entropy : nat -> Z)
        (excluded : list Cell) (cur : nat) :
  (forall fuel e, randomize_position entropy fuel excluded cur <> Raise e) /\
  (forall k,
     (forall j, (j < k)%nat -> In (drawn entropy cur j) excluded) ->
     ~ In (drawn entropy cur k) excluded ->
     forall fuel,
       randomize_position entropy fuel excluded cur =
         if (fuel <=? k)%nat then Diverge
         else Ok (mkFood (drawn entropy cur k), (cur + 2 * S k)%nat)) /\
  (forall n, exists late f cur',
     randomize_position late n [(0, 0)] cur = Diverge /\
     randomize_position late (S n) [(0, 0)] cur = Ok (f, cur')) /\
  (covers_grid excluded ->
   forall fuel, randomize_position entropy fuel excluded cur = Diverge).
Proof.
  split; [|split; [|split]].
  - intros fuel e. apply randomize_position_no_raise.
  - intros k Hbusy Hfree fuel.
    apply randomize_position_first_free; assumption.
  - intros n. destruct (late_draws cur n) as [Hbusy Hfree].
    set (late := fun i => if (i <? cur + 2 * n)%nat then 0 else 1) in *.
    assert (F : forall fuel,
               randomize_position late fuel [(0, 0)] cur =
                 if (fuel <=? n)%nat then Diverge
                 else Ok (mkFood (drawn late cur n), (cur + 2 * S n)%nat)).
    { intros fuel. apply randomize_position_first_free.
      - intros j Hj. rewrite (Hbusy j Hj). left; reflexivity.
      - rewrite Hfree. intros [H | []]. discriminate H. }
    exists late, (mkFood (drawn late cur n)), (cur + 2 * S n)%nat.
    rewrite !F, Nat.leb_refl.
    replace (S n <=? n)%nat with false
      by (symmetry; apply Nat.leb_gt; lia).
    split; reflexivity.
  - intros Hcov fuel. apply randomize_position_covered; assumption.
Qed.

Lemma randomize_position_unbounded_witness :
  randomize_position counting_draws 1 [(0, 1)] 0 = Diverge /\
  randomize_position counting_draws 2 [(0, 1)] 0 = Ok (mkFood (2, 3), 4%nat) /\
  randomize_position counting_draws 7 all_cells 0 = Diverge.
Proof.
  assert (Hbusy : forall j, (j < 1)%nat ->
                            In (drawn counting_draws 0 j) [(0, 1)]).
  { intros j Hj. replace j with 0%nat by lia. left; reflexivity. }
  assert (Hfree : ~ In (drawn counting_draws 0 1) [(0, 1)]).
  { intros [H | []]. discriminate H. }
  pose proof (proj1 (proj2 (randomize_position_unbounded
                              counting_draws [(0, 1)] 0))
                1%nat Hbusy Hfree) as F.
  split; [exact (F 1%nat)|]. split; [exact (F 2%nat)|].
  exact (proj2 (proj2 (proj2 (randomize_position_unbounded
                                counting_draws all_cells 0)))
           all_cells_cover 7%nat).
Defined.

(** ** Commands that do not apply *)

(** C8, as the claim has it, fails: [change_direction] stores a value that
    is none of the four directions, and the next [update] adopts it, the
    head jumping two cells. *)
Lemma invalid_direction_counterexample :
  is_direction (2, 0) = false /\
  next_direction centre_snake = Some RIGHT /\
  change_direction centre_snake (2, 0) =
    mkSnake [(20, 15)] RIGHT (Some (2, 0)) 0 0 0 /\
  update (change_direction centre_snake (2, 0)) =
    Ok (false, mkSnake [(22, 15)] (2, 0) None 0 0 0).
Proof. repeat split. Qed.

Lemma update_adopts (s : Snake) (d : Vec) :
  positions s <> [] -> negate d <> direction s ->
  exists flag s', update (change_direction s d) = Ok (flag, s') /\
                  direction s' = d /\ next_direction s' = None.
Proof.
  intros Hne Hrev.
  destruct (update_total (change_direction s d) Hne) as (flag & s' & U).
  exists flag, s'. split; [assumption|].
  assert (T : turn (change_direction s d) =
              mkSnake (positions s) d None (score s) (color_index s)
                      (grow_pending s)).
  { unfold turn, change_direction; cbn [next_direction direction].
    apply cell_eqb_neq in Hrev. rewrite Hrev. reflexivity. }
  destruct (update_buffer _ flag s' U) as [[-> | [c ->]] _]; rewrite T.
  - auto.
  - destruct (move_snake_direction
                (mkSnake (positions s) d None (score s) (color_index s)
                         (grow_pending s)) c) as [-> ->].
    auto.
Qed.

(** C8, amended.  While the game is not over, a key that is not one of the
    four arrows (the restart key and the quit key among them) is a no-op of
    the event loop: it returns the state unchanged and raises nothing; an
    arrow key submits one of the four directions.  [change_direction]
    itself validates nothing: whatever value it is given becomes the
    buffered direction, the other fields staying as they were, and the
    next [update] adopts it unless it is the negation of the current
    direction. *)
Theorem invalid_commands (entropy : nat -> Z) (fuel : nat) (g : Game) :
  (game_over g = false ->
   handle_event entropy fuel g (KEYDOWN K_r) = Ok g /\
   handle_event entropy fuel g (KEYDOWN K_q) = Ok g /\
   (forall k, arrow_key k = false ->
              handle_event entropy fuel g (KEYDOWN k) = Ok g) /\
   (forall k, arrow_key k = true ->
      exists d, is_direction d = true /\
                handle_event entropy fuel g (KEYDOWN k) =
                  Ok (with_snake g (change_direction (snake g) d)))) /\
  (forall s d,
     change_direction s d =
       mkSnake (positions s) (direction s) (Some d) (score s)
               (color_index s) (grow_pending s)) /\
  (forall s d,
     positions s <> [] -> negate d <> direction s ->
     exists flag s', update (change_direction s d) = Ok (flag, s') /\
                     direction s' = d /\ next_direction s' = None).
Proof.
  split; [|split].
  - intros Hplay. unfold handle_event. rewrite Hplay.
    split; [reflexivity|]. split; [reflexivity|]. split.
    + intros k Hk. destruct k; try reflexivity; discriminate Hk.
    + intros k Hk. destruct k; try discriminate Hk.
      * exists UP; split; reflexivity.
      * exists DOWN; split; reflexivity.
      * exists LEFT; split; reflexivity.
      * exists RIGHT; split; reflexivity.
  - reflexivity.
  - apply update_adopts.
Qed.

Lemma invalid_commands_witness :
  handle_event zero_draws 3 playing_game (KEYDOWN K_r) = Ok playing_game /\
  handle_event zero_draws 3 playing_game (KEYDOWN (K_other 32)) =
    Ok playing_game /\
  exists flag s', update (change_direction centre_snake (0, 3)) =
                    Ok (flag, s') /\
                  direction s' = (0, 3) /\ next_direction s' = None.
Proof.
  pose proof (proj1 (invalid_commands zero_draws 3 playing_game) eq_refl)
    as (Hr & _ & Hk & _).
  split; [exact Hr|]. split; [exact (Hk (K_other 32) eq_refl)|].
  apply (proj2 (proj2 (invalid_commands zero_draws 3 playing_game))).
  - discriminate.
  - discriminate.
Defined.

(** ** The food is never on the snake *)

Lemma In_removelast (l : list Cell) (c : Cell) :
  In c (removelast l) -> In c l.
Proof.
  induction l as [|x l IH]; [auto|].
  destruct l as [|y l]; [intros []|].
  change (In c (x :: removelast (y :: l)) -> In c (x :: y :: l)).
  intros [-> | H]; [left; reflexivity | right; apply IH; assumption].
Qed.

(** After a call that returns [False] the head is the new cell and the
    rest of the body was already body before. *)
Lemma update_moved (s s' : Snake) :
  update s = Ok (false, s') ->
  exists nh, get_head_position s' = Ok nh /\
             forall c, In c (positions s') -> c = nh \/ In c (positions s).
Proof.
  intros U. destruct (update_buffer s false s' U) as [_ Hne].
  assert (M : exists c, s' = move_snake (turn s) c).
  { revert U. unfold update, get_head_position.
    destruct (positions (turn s)) as [|h t]; [discriminate|]. cbn [bind].
    repeat match goal with
           | |- context [if ?b then Ok _ else _] => destruct b
           | |- context [if ?b then _ else Ok _] => destruct b
           end; try discriminate; intros [= <-]; eauto. }
  destruct M as [c ->]. exists c.
  assert (Hne' : positions (turn s) <> [])
    by (rewrite turn_positions; assumption).
  unfold get_head_position.
  rewrite (move_snake_positions _ c Hne'), turn_positions.
  destruct (0 <? grow_pending (turn s)).
  - split; [reflexivity|]. intros x [<- | H]; auto.
  - split; [reflexivity|]. intros x [<- | H]; auto.
    right. apply In_removelast; assumption.
Qed.

Section Session.

Variable entropy : nat -> Z.

Lemma reset_ok (cur : nat) :
  exists d, reset entropy cur =
              Ok (mkSnake [(20, 15)] d (Some d) 0 0 0, S cur).
Proof.
  unfold reset, choice. cbn [length].
  pose proof (Z.mod_pos_bound (entropy cur) 4 ltac:(lia)) as B.
  change (Z.of_nat 4) with 4.
  destruct (Z.to_nat (entropy cur mod 4)) as [|[|[|[|n]]]] eqn:E;
    cbn [nth_error bind fst snd]; eauto.
  lia.
Qed.

Lemma randomize_position_free (fuel : nat) (excluded : list Cell)
      (cur : nat) (fc : Food * nat) :
  randomize_position entropy fuel excluded cur = Ok fc ->
  ~ In (position (fst fc)) excluded.
Proof.
  destruct fc as [f cur']. intros H.
  apply randomize_position_ok in H.
  destruct H as (k & _ & Hp & _ & Hfree & _).
  cbn [fst]. rewrite Hp. assumption.
Qed.

Lemma main_init_food_free (fuel cur : nat) (g : Game) :
  main_init entropy fuel cur = Ok g -> food_free g.
Proof.
  unfold main_init. destruct (reset_ok cur) as [d ->].
  cbn [bind fst snd positions].
  destruct (Food_init entropy fuel (S cur)) as [fc| |]; cbn [bind];
    try discriminate.
  destruct (randomize_position entropy fuel [(20, 15)] (snd fc))
    as [fc'| |] eqn:R; cbn [bind]; try discriminate.
  unfold food_free. intros [= <-] _. cbn [food snake positions].
  eapply randomize_position_free; eassumption.
Qed.

Lemma restart_food_free (fuel : nat) (g g' : Game) :
  game_over g = true ->
  handle_event entropy fuel g (KEYDOWN K_r) = Ok g' ->
  game_over g' = false /\
  ~ In (position (food g')) (positions (snake g')).
Proof.
  intros Hover. unfold handle_event. rewrite Hover.
  destruct (reset_ok (cursor g)) as [d ->]. cbn [bind fst snd positions].
  destruct (randomize_position entropy fuel [(20, 15)] (S (cursor g)))
    as [fc| |] eqn:R; cbn [bind]; try discriminate.
  intros [= <-]. cbn [food snake positions game_over].
  split; [reflexivity|]. eapply randomize_position_free; eassumption.
Qed.

Lemma handle_event_food_free (fuel : nat) (g g' : Game) (e : event) :
  food_free g -> handle_event entropy fuel g e = Ok g' -> food_free g'.
Proof.
  intros Inv. destruct e as [|k|]; cbn [handle_event].
  - intros [= <-]. exact Inv.
  - destruct (game_over g) eqn:Hover.
    + destruct k; try (intros [= <-]; unfold food_free;
                       cbn [stop_running game_over]; congruence).
      intros H _.
      apply (restart_food_free fuel g g' Hover).
      cbn [handle_event]. rewrite Hover. exact H.
    + destruct k; intros [= <-]; exact Inv.
  - intros [= <-]. exact Inv.
Qed.

Lemma handle_events_food_free (fuel : nat) (events : list event) :
  forall g g', food_free g -> handle_events entropy fuel g events = Ok g' ->
               food_free g'.
Proof.
  induction events as [|e rest IH]; intros g g' Inv; cbn [handle_events].
  - intros [= <-]. exact Inv.
  - destruct (handle_event entropy fuel g e) as [g1| |] eqn:E; cbn [bind];
      try discriminate.
    apply IH. eapply handle_event_food_free; eassumption.
Qed.

Lemma game_logic_food_free (fuel : nat) (g g' : Game) :
  food_free g -> game_logic entropy fuel g = Ok g' -> food_free g'.
Proof.
  intros Inv. unfold game_logic.
  destruct (game_over g) eqn:Hover; cbn [negb].
  { intros [= <-]. exact Inv. }
  destruct (update (snake g)) as [[flag s]| |] eqn:U; cbn [bind fst snd];
    try discriminate.
  destruct flag; cbn [negb].
  { intros [= <-]. unfold food_free; cbn [game_over]. discriminate. }
  destruct (update_moved _ _ U) as (nh & Hhead & Hbody).
  rewrite Hhead. cbn [bind].
  destruct (cell_eqb nh (get_position (food g))) eqn:Heat.
  - destruct (randomize_position entropy fuel (positions (grow s)) (cursor g))
      as [fc| |] eqn:R; cbn [bind]; try discriminate.
    unfold food_free. intros [= <-] _. cbn [food snake].
    eapply randomize_position_free; eassumption.
  - unfold food_free. intros [= <-] _. cbn [food snake]. intros Hin.
    apply cell_eqb_neq in Heat. unfold get_position in Heat.
    destruct (Hbody _ Hin) as [Heq | Hold].
    + congruence.
    + exact (Inv Hover Hold).
Qed.

Lemma main_iteration_food_free (fuel : nat) (events : list event)
      (g g' : Game) (fps : Z) :
  food_free g -> main_iteration entropy fuel events g = Ok (g', fps) ->
  food_free g'.
Proof.
  intros Inv. unfold main_iteration.
  destruct (handle_events entropy fuel g events) as [g1| |] eqn:E;
    cbn [bind]; try discriminate.
  destruct (game_logic entropy fuel g1) as [g2| |] eqn:L;
    cbn [bind]; try discriminate.
  intros [= <- _].
  eapply game_logic_food_free; [|eassumption].
  eapply handle_events_food_free; eassumption.
Qed.

End Session.

(** C5.  The food is not on the snake while the game is not over: this
    holds of the state the loop starts from, every pass of the loop (its
    events, a restart among them, and its tick) hands it on, a restart
    from game over gives a state in play that has it, and so it holds of
    every state the session reaches. *)
Theorem food_never_on_snake (entropy : nat -> Z) :
  (forall fuel cur g, main_init entropy fuel cur = Ok g -> food_free g) /\
  (forall fuel events g g' fps,
     food_free g -> main_iteration entropy fuel events g = Ok (g', fps) ->
     food_free g') /\
  (forall fuel g g',
     game_over g = true ->
     handle_event entropy fuel g (KEYDOWN K_r) = Ok g' ->
     game_over g' = false /\
     ~ In (position (food g')) (positions (snake g'))) /\
  (forall g, reachable entropy g -> game_over g = false ->
             ~ In (position (food g)) (positions (snake g))).
Proof.
  split; [|split; [|split]].
  - apply main_init_food_free.
  - apply main_iteration_food_free.
  - apply restart_food_free.
  - intros g R. induction R as [fuel cur g H | fuel events g g' fps _ IH _ H].
    + eapply main_init_food_free; eassumption.
    + eapply main_iteration_food_free; eassumption.
Qed.

Lemma food_never_on_snake_witness :
  reachable counting_draws second_game /\
  game_over second_game = false /\
  ~ In (position (food second_game)) (positions (snake second_game)).
Proof.
  assert (R : reachable counting_draws second_game).
  { apply (reach_iter counting_draws 3 [KEYDOWN K_UP] started_game
                      second_game 10).
    - apply (reach_init counting_draws 3 0). reflexivity.
    - reflexivity.
    - reflexivity. }
  split; [exact R|]. split; [reflexivity|].
  exact (proj2 (proj2 (proj2 (food_never_on_snake counting_draws)))
           second_game R eq_refl).
Defined.

(** ** The loop raises nothing *)

Section Progress.

Variable entropy : nat -> Z.

Lemma handle_event_progress (fuel : nat) (g : Game) (e : event) :
  has_body g ->
  (forall x, handle_event entropy fuel g e <> Raise x) /\
  (forall g', handle_event entropy fuel g e = Ok g' -> has_body g').
Proof.
  intros Hb. unfold has_body in *.
  destruct e as [|k|]; cbn [handle_event].
  - split; [discriminate | intros g' [= <-]; exact Hb].
  - destruct (game_over g).
    + destruct k;
        try (split; [discriminate | intros g' [= <-]; exact Hb]).
      destruct (reset_ok entropy (cursor g)) as [d ->].
      cbn [bind fst snd positions].
      pose proof (randomize_position_no_raise entropy [(20, 15)] fuel
                    (S (cursor g))) as NR.
      destruct (randomize_position entropy fuel [(20, 15)] (S (cursor g)))
        as [fc| |]; cbn [bind].
      * split; [discriminate | intros g' [= <-]; discriminate].
      * exfalso. exact (NR e eq_refl).
      * split; discriminate.
    + destruct k; (split; [discriminate | intros g' [= <-]; exact Hb]).
  - split; [discriminate | intros g' [= <-]; exact Hb].
Qed.

Lemma handle_events_progress (fuel : nat) (events : list event) :
  forall g, has_body g ->
    (forall x, handle_events entropy fuel g events <> Raise x) /\
    (forall g', handle_events entropy fuel g events = Ok g' -> has_body g').
Proof.
  induction events as [|e rest IH]; intros g Hb; cbn [handle_events].
  - split; [discriminate | intros g' [= <-]; exact Hb].
  - destruct (handle_event_progress fuel g e Hb) as [NR Keep].
    destruct (handle_event entropy fuel g e) as [g1|x|]; cbn [bind].
    + apply IH, Keep. reflexivity.
    + exfalso. exact (NR x eq_refl).
    + split; discriminate.
Qed.

Lemma game_logic_progress (fuel : nat) (g : Game) :
  has_body g ->
  (forall x, game_logic entropy fuel g <> Raise x) /\
  (forall g', game_logic entropy fuel g = Ok g' -> has_body g').
Proof.
  intros Hb. unfold has_body in *. unfold game_logic.
  destruct (game_over g); cbn [negb].
  { split; [discriminate | intros g' [= <-]; exact Hb]. }
  destruct (update_total (snake g) Hb) as (flag & s & U).
  rewrite U. cbn [bind fst snd].
  pose proof (update_keeps_nonempty _ _ _ U) as Hs.
  destruct flag; cbn [negb].
  { split; [discriminate | intros g' [= <-]; exact Hs]. }
  destruct (update_moved _ _ U) as (nh & -> & _). cbn [bind].
  destruct (cell_eqb nh (get_position (food g))).
  - pose proof (randomize_position_no_raise entropy (positions (grow s))
                  fuel (cursor g)) as NR.
    destruct (randomize_position entropy fuel (positions (grow s))
                (cursor g)) as [fc|x|]; cbn [bind].
    + split; [discriminate | intros g' [= <-]; exact Hs].
    + exfalso. exact (NR x eq_refl).
    + split; discriminate.
  - split; [discriminate | intros g' [= <-]; exact Hs].
Qed.

Lemma main_init_has_body (fuel cur : nat) (g : Game) :
  main_init entropy fuel cur = Ok g -> has_body g.
Proof.
  unfold main_init. destruct (reset_ok entropy cur) as [d ->].
  cbn [bind fst snd positions].
  destruct (Food_init entropy fuel (S cur)) as [fc| |]; cbn [bind];
    try discriminate.
  destruct (randomize_position entropy fuel [(20, 15)] (snd fc))
    as [fc'| |]; cbn [bind]; try discriminate.
  intros [= <-]. discriminate.
Qed.

Lemma main_iteration_progress (fuel : nat) (events : list event) (g : Game) :
  has_body g ->
  (forall x, main_iteration entropy fuel events g <> Raise x) /\
  (forall g' fps, main_iteration entropy fuel events g = Ok (g', fps) ->
                  has_body g').
Proof.
  intros Hb. unfold main_iteration.
  destruct (handle_events_progress fuel events g Hb) as [NR Keep].
  destruct (handle_events entropy fuel g events) as [g1|x|]; cbn [bind].
  - destruct (game_logic_progress fuel g1 (Keep g1 eq_refl)) as [NR' Keep'].
    destruct (game_logic entropy fuel g1) as [g2|x|]; cbn [bind].
    + split; [discriminate | intros g' fps [= <- _]; apply Keep'; reflexivity].
    + exfalso. exact (NR' x eq_refl).
    + split; discriminate.
  - exfalso. exact (NR x eq_refl).
  - split; discriminate.
Qed.

(** X7.  Every state the session reaches has a snake with a body, so no
    pass of the loop ends in an exception: it yields the next state, or
    its food placement has not returned yet. *)
Lemma reachable_never_raises (g : Game) :
  reachable entropy g ->
  has_body g /\
  forall fuel events x, main_iteration entropy fuel events g <> Raise x.
Proof.
  intros R.
  assert (Hb : has_body g).
  { induction R as [fuel cur g H | fuel events g g' fps _ IH _ H].
    - eapply main_init_has_body; eassumption.
    - eapply (proj2 (main_iteration_progress fuel events g IH)); eassumption. }
  split; [exact Hb|].
  intros fuel events. apply (main_iteration_progress fuel events g Hb).
Qed.

End Progress.

Lemma reachable_never_raises_witness :
  has_body second_game /\
  main_iteration counting_draws 3 [KEYDOWN K_LEFT] second_game <>
    Raise IndexError.
Proof.
  assert (R : reachable counting_draws second_game).
  { apply (reach_iter counting_draws 3 [KEYDOWN K_UP] started_game
                      second_game 10).
    - apply (reach_init counting_draws 3 0). reflexivity.
    - reflexivity.
    - reflexivity. }
  destruct (reachable_never_raises counting_draws second_game R) as [Hb Hn].
  split; [exact Hb | exact (Hn 3%nat [KEYDOWN K_LEFT] IndexError)].
Defined.

(** * Further properties of the snake *)

(** ** The two ways out of [update] *)

Lemma update_inv (s : Snake) (flag : bool) (s' : Snake) :
  update s = Ok (flag, s') ->
  exists h t,
    positions s = h :: t /\
    ((flag = true /\ s' = turn s /\
      (in_grid (step_cell h (direction (turn s))) = false \/
       (In (step_cell h (direction (turn s))) (positions s) /\
        ~ (step_cell h (direction (turn s)) = last (positions s) h /\
           grow_pending s = 0)))) \/
     (flag = false /\
      s' = move_snake (turn s) (step_cell h (direction (turn s))) /\
      in_grid (step_cell h (direction (turn s))) = true /\
      (~ In (step_cell h (direction (turn s))) (positions s) \/
       (step_cell h (direction (turn s)) = last (positions s) h /\
        grow_pending s = 0)))).
Proof.
  unfold update, get_head_position.
  rewrite turn_positions, turn_grow_pending.
  destruct (positions s) as [|h t] eqn:Hp; [discriminate|]. cbn [bind].
  set (nh := step_cell h (direction (turn s))).
  intros H. exists h, t. split; [reflexivity|].
  destruct (in_grid nh) eqn:G; cbn [negb] in H.
  - destruct (cell_in nh (h :: t)) eqn:I.
    + destruct (cell_eqb nh (last (h :: t) h)) eqn:E1;
        destruct (grow_pending s =? 0) eqn:E2; cbn [andb] in H;
        injection H as <- <-.
      * right. split; [reflexivity|]. split; [reflexivity|].
        split; [exact G|]. right. split.
        -- apply cell_eqb_eq; assumption.
        -- apply Z.eqb_eq; assumption.
      * left. split; [reflexivity|]. split; [reflexivity|]. right.
        split; [apply cell_in_In; assumption|].
        intros [_ Hg]. apply Z.eqb_neq in E2. contradiction.
      * left. split; [reflexivity|]. split; [reflexivity|]. right.
        split; [apply cell_in_In; assumption|].
        intros [He _]. apply cell_eqb_neq in E1. contradiction.
      * left. split; [reflexivity|]. split; [reflexivity|]. right.
        split; [apply cell_in_In; assumption|].
        intros [He _]. apply cell_eqb_neq in E1. contradiction.
    + injection H as <- <-. right. split; [reflexivity|].
      split; [reflexivity|]. split; [exact G|]. left.
      apply cell_in_not_In; assumption.
  - injection H as <- <-. left. split; [reflexivity|].
    split; [reflexivity|]. left. exact G.
Qed.

Lemma turn_color (s : Snake) : color_index (turn s) = color_index s.
Proof.
  unfold turn. destruct (next_direction s) as [nd|]; [|reflexivity].
  destruct (negb _); reflexivity.
Qed.

Lemma move_snake_counters (s : Snake) (c : Cell) :
  score (move_snake s c) = score s /\
  color_index (move_snake s c) = color_index s.
Proof. unfold move_snake. destruct (0 <? grow_pending s); auto. Qed.

Lemma update_score_color (s : Snake) (flag : bool) (s' : Snake) :
  update s = Ok (flag, s') ->
  score s' = score s /\ color_index s' = color_index s.
Proof.
  intros U. destruct (update_buffer s flag s' U) as [[-> | [c ->]] _].
  - split; [apply turn_score | apply turn_color].
  - destruct (move_snake_counters (turn s) c) as [-> ->].
    split; [apply turn_score | apply turn_color].
Qed.

(** ** The body stays in the grid and free of repeats *)

Lemma Forall_removelast (P : Cell -> Prop) (l : list Cell) :
  Forall P l -> Forall P (removelast l).
Proof.
  rewrite !Forall_forall. intros H x Hx. apply H, In_removelast, Hx.
Qed.

Lemma NoDup_removelast (l : list Cell) (d : Cell) :
  l <> [] -> NoDup l ->
  NoDup (removelast l) /\ ~ In (last l d) (removelast l).
Proof.
  intros Hne Hnd.
  rewrite (app_removelast_last d Hne) in Hnd.
  split.
  - apply NoDup_remove_1 in Hnd. rewrite app_nil_r in Hnd. exact Hnd.
  - apply NoDup_remove_2 in Hnd. rewrite app_nil_r in Hnd. exact Hnd.
Qed.

Lemma update_in_grid (s : Snake) (flag : bool) (s' : Snake) :
  Forall (fun c => in_grid c = true) (positions s) ->
  update s = Ok (flag, s') ->
  Forall (fun c => in_grid c = true) (positions s').
Proof.
  intros Hall U.
  destruct (update_inv s flag s' U) as (h & t & Hp & [C | M]).
  - destruct C as (_ & -> & _). rewrite turn_positions. exact Hall.
  - destruct M as (_ & -> & Hg & _).
    rewrite move_snake_positions
      by (rewrite turn_positions, Hp; discriminate).
    rewrite turn_positions.
    destruct (0 <? grow_pending (turn s)); constructor; try assumption.
    apply Forall_removelast, Hall.
Qed.

Lemma update_distinct (s : Snake) (flag : bool) (s' : Snake) :
  NoDup (positions s) ->
  update s = Ok (flag, s') ->
  NoDup (positions s').
Proof.
  intros Hnd U.
  destruct (update_inv s flag s' U) as (h & t & Hp & [C | M]).
  - destruct C as (_ & -> & _). rewrite turn_positions. exact Hnd.
  - destruct M as (_ & -> & _ & Hfree).
    assert (Hne : positions s <> []) by (rewrite Hp; discriminate).
    rewrite move_snake_positions by (rewrite turn_positions; exact Hne).
    rewrite turn_positions, turn_grow_pending.
    destruct (NoDup_removelast (positions s) h Hne Hnd) as [Hnd' Hlast].
    destruct Hfree as [Hout | [Htail Hg]].
    + destruct (0 <? grow_pending s); constructor; try assumption.
      intros Hin. apply Hout, In_removelast, Hin.
    + rewrite Hg. cbn. constructor; [|assumption].
      rewrite Htail. exact Hlast.
Qed.

(** X1.  A call of [update] that returns keeps the body non-empty; if
    every cell of the body was in the grid, every cell still is; if no
    cell was repeated, none is; and when it returns [False] the new head
    is the old head moved by the direction in force, a cell of the grid,
    the rest of the body being cells of the old body. *)
Theorem update_keeps_body_sound (s : Snake) (flag : bool) (s' : Snake) :
  update s = Ok (flag, s') ->
  positions s' <> [] /\
  (Forall (fun c => in_grid c = true) (positions s) ->
   Forall (fun c => in_grid c = true) (positions s')) /\
  (NoDup (positions s) -> NoDup (positions s')) /\
  (flag = false ->
   exists h t rest,
     positions s = h :: t /\
     positions s' = step_cell h (direction s') :: rest /\
     in_grid (step_cell h (direction s')) = true /\
     incl rest (positions s)).
Proof.
  intros U. split; [eapply update_keeps_nonempty; eassumption|].
  split; [intros H; eapply update_in_grid; eassumption|].
  split; [intros H; eapply update_distinct; eassumption|].
  intros ->.
  destruct (update_inv s false s' U) as (h & t & Hp & [C | M]).
  - destruct C as (C & _). discriminate C.
  - destruct M as (_ & -> & Hg & _).
    destruct (move_snake_direction (turn s)
                (step_cell h (direction (turn s)))) as [-> _].
    rewrite move_snake_positions
      by (rewrite turn_positions, Hp; discriminate).
    rewrite turn_positions, turn_grow_pending.
    exists h, t.
    destruct (0 <? grow_pending s).
    + exists (positions s). split; [assumption|]. split; [reflexivity|].
      split; [assumption|]. apply incl_refl.
    + exists (removelast (positions s)). split; [assumption|].
      split; [reflexivity|]. split; [assumption|].
      intros c Hc. apply In_removelast, Hc.
Qed.

Lemma update_keeps_body_sound_witness :
  positions (mkSnake [(6, 5); (5, 5); (5, 6); (6, 6)] RIGHT None 3 0 0) <> [] /\
  NoDup [(6, 5); (5, 5); (5, 6); (6, 6)].
Proof.
  pose proof (update_keeps_body_sound (square_snake 0) false
                (mkSnake [(6, 5); (5, 5); (5, 6); (6, 6)] RIGHT None 3 0 0)
                eq_refl) as (Hne & _ & Hnd & _).
  split; [exact Hne|]. apply Hnd.
  repeat constructor; simpl; intuition discriminate.
Defined.

(** ** No turning back *)

Lemma negate_fixed (d : Vec) : d = negate d -> d = (0, 0).
Proof.
  destruct d as [x y]. unfold negate; cbn [fst snd].
  intros [= Hx Hy]. f_equal; lia.
Qed.

Lemma turn_direction (s : Snake) :
  (direction (turn s) = direction s /\
   (next_direction (turn s) = next_direction s)) \/
  (next_direction s = Some (direction (turn s)) /\
   negate (direction (turn s)) <> direction s /\
   next_direction (turn s) = None).
Proof.
  unfold turn. destruct (next_direction s) as [nd|] eqn:E; [|left; auto].
  destruct (cell_eqb (negate nd) (direction s)) eqn:Q; cbn [negb].
  - left. auto.
  - right. cbn [direction next_direction]. apply cell_eqb_neq in Q. auto.
Qed.

Lemma update_direction (s : Snake) (flag : bool) (s' : Snake) :
  update s = Ok (flag, s') ->
  direction s' = direction (turn s) /\
  next_direction s' = next_direction (turn s).
Proof.
  intros U. destruct (update_buffer s flag s' U) as [[-> | [c ->]] _].
  - auto.
  - apply move_snake_direction.
Qed.

(** X2.  Whatever is buffered, a call of [update] never turns the snake
    back on itself: the direction it leaves is not the negation of the
    direction it found (for a direction other than the null vector); it is
    either the old direction or the buffered one. *)
Theorem update_never_reverses (s : Snake) (flag : bool) (s' : Snake) :
  direction s <> (0, 0) ->
  update s = Ok (flag, s') ->
  direction s' <> negate (direction s) /\
  (direction s' = direction s \/ next_direction s = Some (direction s')).
Proof.
  intros Hnz U. destruct (update_direction s flag s' U) as [-> _].
  destruct (turn_direction s) as [[-> _] | (Hb & Hrev & _)].
  - split; [|left; reflexivity].
    intros H. apply Hnz, negate_fixed, H.
  - split; [|right; assumption].
    intros H. apply Hrev. rewrite H. apply negate_involutive.
Qed.

Lemma update_never_reverses_witness :
  update (change_direction centre_snake LEFT) =
    Ok (false, mkSnake [(21, 15)] RIGHT (Some LEFT) 0 0 0) /\
  RIGHT <> LEFT.
Proof.
  split; [reflexivity|].
  apply (update_never_reverses (change_direction centre_snake LEFT) false
           (mkSnake [(21, 15)] RIGHT (Some LEFT) 0 0 0)).
  - discriminate.
  - reflexivity.
Defined.

(** ** What the session keeps true of its snake *)

Lemma is_direction_cases (d : Vec) :
  is_direction d = true <-> d = UP \/ d = DOWN \/ d = LEFT \/ d = RIGHT.
Proof.
  unfold is_direction. rewrite !orb_true_iff, !cell_eqb_eq. tauto.
Qed.

Lemma is_direction_nonzero (d : Vec) :
  is_direction d = true -> d <> (0, 0).
Proof.
  intros H. apply is_direction_cases in H.
  destruct H as [-> | [-> | [-> | ->]]]; discriminate.
Qed.

Lemma turn_snake_ok (s : Snake) : snake_ok s -> snake_ok (turn s).
Proof.
  intros [Hb Hg Hd Hdir Hbuf Hp Hl Hc].
  constructor;
    rewrite ?turn_positions, ?turn_grow_pending, ?turn_score, ?turn_color;
    try assumption.
  - destruct (turn_direction s) as [[-> _] | (Hn & _ & _)];
      [assumption | apply Hbuf, Hn].
  - destruct (turn_direction s) as [[_ ->] | (_ & _ & ->)];
      [assumption | discriminate].
Qed.

Lemma update_snake_ok (s : Snake) (flag : bool) (s' : Snake) :
  snake_ok s -> update s = Ok (flag, s') ->
  snake_ok s' /\ (flag = false -> grow_pending s' = 0).
Proof.
  intros Hok U.
  pose proof (turn_snake_ok s Hok) as [Tb Tg Td Tdir Tbuf Tp Tl Tc].
  destruct Hok as [Hb Hg Hd Hdir Hbuf Hp Hl Hc].
  destruct (update_direction s flag s' U) as [Ed En].
  destruct (update_score_color s flag s' U) as [Es Ec].
  assert (Hcount : Z.of_nat (length (positions s')) =
                     score s + 1 - grow_pending s' /\
                   0 <= grow_pending s' <= 1 /\
                   (flag = false -> grow_pending s' = 0)).
  { destruct flag.
    - destruct (update_inv s true s' U) as (h & t & _ & [C | M]).
      + destruct C as (_ & -> & _).
        rewrite turn_positions, turn_grow_pending.
        split; [assumption|]. split; [assumption | discriminate].
      + destruct M as (M & _). discriminate M.
    - pose proof (update_length s s' U) as L.
      destruct (0 <? grow_pending s) eqn:E; destruct L as [Ll Lg].
      + apply Z.ltb_lt in E. rewrite Ll, Lg.
        split; [lia|]. split; [lia|]. intros _. lia.
      + apply Z.ltb_ge in E. rewrite Ll, Lg.
        split; [lia|]. split; [lia|]. intros _. lia. }
  destruct Hcount as (Hl' & Hp' & Hzero).
  split; [|exact Hzero].
  constructor.
  - exact (update_keeps_nonempty s flag s' U).
  - exact (update_in_grid s flag s' Hg U).
  - exact (update_distinct s flag s' Hd U).
  - rewrite Ed. assumption.
  - rewrite En. assumption.
  - assumption.
  - rewrite Es. assumption.
  - rewrite Ec, Es. assumption.
Qed.

Lemma grow_snake_ok (s : Snake) :
  snake_ok s -> grow_pending s = 0 -> snake_ok (grow s).
Proof.
  intros [Hb Hg Hd Hdir Hbuf Hp Hl Hc] Hz.
  constructor; cbn [grow positions direction next_direction grow_pending
                    score]; try assumption.
  - lia.
  - lia.
  - rewrite grow_color, Hc.
    assert (Hs : 0 <= score s).
    { destruct (positions s); [contradiction|]. cbn [length] in Hl. lia. }
    replace (0 <? score s + 1) with true
      by (symmetry; apply Z.ltb_lt; lia).
    cbn [andb].
    destruct ((score s + 1) mod 10 =? 0) eqn:E.
    + apply Z.eqb_eq in E. rewrite Z.add_mod_idemp_l by lia. f_equal.
      Z.div_mod_to_equations. lia.
    + apply Z.eqb_neq in E. f_equal. Z.div_mod_to_equations. lia.
Qed.

Lemma change_direction_snake_ok (s : Snake) (d : Vec) :
  snake_ok s -> is_direction d = true -> snake_ok (change_direction s d).
Proof.
  intros [Hb Hg Hd Hdir Hbuf Hp Hl Hc] Hdd.
  constructor; cbn [change_direction positions direction next_direction
                    grow_pending score color_index]; try assumption.
  intros d' [= <-]. assumption.
Qed.

Lemma reset_shape (entropy : nat -> Z) (cur : nat) :
  exists d, is_direction d = true /\
            reset entropy cur =
              Ok (mkSnake [(20, 15)] d (Some d) 0 0 0, S cur).
Proof.
  unfold reset, choice. cbn [length].
  pose proof (Z.mod_pos_bound (entropy cur) 4 ltac:(lia)) as B.
  change (Z.of_nat 4) with 4.
  destruct (Z.to_nat (entropy cur mod 4)) as [|[|[|[|n]]]] eqn:E;
    cbn [nth_error bind fst snd]; [eexists; split; [|reflexivity];
                                   reflexivity .. |].
  lia.
Qed.

Lemma fresh_snake_ok (d : Vec) :
  is_direction d = true -> snake_ok (mkSnake [(20, 15)] d (Some d) 0 0 0).
Proof.
  intros Hd. constructor; cbn [positions direction next_direction
                               grow_pending score color_index length].
  - discriminate.
  - repeat constructor.
  - repeat constructor. intros [].
  - assumption.
  - intros d' [= <-]. assumption.
  - lia.
  - reflexivity.
  - reflexivity.
Qed.

Section SessionInvariant.

Variable entropy : nat -> Z.

Lemma randomize_position_in_grid (fuel : nat) (excluded : list Cell)
      (cur : nat) (fc : Food * nat) :
  randomize_position entropy fuel excluded cur = Ok fc ->
  in_grid (position (fst fc)) = true.
Proof.
  destruct fc as [f cur']. intros H.
  apply randomize_position_ok in H.
  destruct H as (k & _ & Hp & _). cbn [fst]. rewrite Hp.
  apply sample_in_grid.
Qed.

Lemma handle_event_session_ok (fuel : nat) (g g' : Game) (e : event) :
  session_ok g -> handle_event entropy fuel g e = Ok g' -> session_ok g'.
Proof.
  intros [Hs Hf]. destruct e as [|k|]; cbn [handle_event].
  - intros [= <-]. split; assumption.
  - destruct (game_over g).
    + destruct k; try (intros [= <-]; split; assumption).
      destruct (reset_shape entropy (cursor g)) as (d & Hd & ->).
      cbn [bind fst snd positions].
      destruct (randomize_position entropy fuel [(20, 15)] (S (cursor g)))
        as [fc| |] eqn:R; cbn [bind]; try discriminate.
      intros [= <-]. split; cbn [snake food].
      * apply fresh_snake_ok, Hd.
      * eapply randomize_position_in_grid; eassumption.
    + destruct k; intros [= <-]; split; cbn [with_snake snake food];
        try assumption;
        apply change_direction_snake_ok; try assumption; reflexivity.
  - intros [= <-]. split; assumption.
Qed.

Lemma handle_events_session_ok (fuel : nat) (events : list event) :
  forall g g', session_ok g -> handle_events entropy fuel g events = Ok g' ->
               session_ok g'.
Proof.
  induction events as [|e rest IH]; intros g g' Hok; cbn [handle_events].
  - intros [= <-]. exact Hok.
  - destruct (handle_event entropy fuel g e) as [g1| |] eqn:E; cbn [bind];
      try discriminate.
    apply IH. eapply handle_event_session_ok; eassumption.
Qed.

Lemma game_logic_session_ok (fuel : nat) (g g' : Game) :
  session_ok g -> game_logic entropy fuel g = Ok g' -> session_ok g'.
Proof.
  intros [Hs Hf]. unfold game_logic.
  destruct (game_over g); cbn [negb].
  { intros [= <-]. split; assumption. }
  destruct (update (snake g)) as [[flag s]| |] eqn:U; cbn [bind fst snd];
    try discriminate.
  destruct (update_snake_ok _ _ _ Hs U) as [Hs' Hz].
  destruct flag; cbn [negb].
  { intros [= <-]. split; assumption. }
  destruct (get_head_position s) as [head| |]; cbn [bind]; try discriminate.
  destruct (cell_eqb head (get_position (food g))).
  - destruct (randomize_position entropy fuel (positions (grow s)) (cursor g))
      as [fc| |] eqn:R; cbn [bind]; try discriminate.
    intros [= <-]. split; cbn [snake food].
    + apply grow_snake_ok; [assumption | apply Hz; reflexivity].
    + eapply randomize_position_in_grid; eassumption.
  - intros [= <-]. split; assumption.
Qed.

Lemma main_init_session_ok (fuel cur : nat) (g : Game) :
  main_init entropy fuel cur = Ok g -> session_ok g.
Proof.
  unfold main_init. destruct (reset_shape entropy cur) as (d & Hd & ->).
  cbn [bind fst snd positions].
  destruct (Food_init entropy fuel (S cur)) as [fc| |]; cbn [bind];
    try discriminate.
  destruct (randomize_position entropy fuel [(20, 15)] (snd fc))
    as [fc'| |] eqn:R; cbn [bind]; try discriminate.
  intros [= <-]. split; cbn [snake food].
  - apply fresh_snake_ok, Hd.
  - eapply randomize_position_in_grid; eassumption.
Qed.

Lemma main_iteration_session_ok (fuel : nat) (events : list event)
      (g g' : Game) (fps : Z) :
  session_ok g -> main_iteration entropy fuel events g = Ok (g', fps) ->
  session_ok g'.
Proof.
  intros Hok. unfold main_iteration.
  destruct (handle_events entropy fuel g events) as [g1| |] eqn:E;
    cbn [bind]; try discriminate.
  destruct (game_logic entropy fuel g1) as [g2| |] eqn:L;
    cbn [bind]; try discriminate.
  intros [= <- _].
  eapply game_logic_session_ok; [|eassumption].
  eapply handle_events_session_ok; eassumption.
Qed.

Lemma reachable_session_ok (g : Game) :
  reachable entropy g -> session_ok g.
Proof.
  intros R. induction R as [fuel cur g H | fuel events g g' fps _ IH _ H].
  - eapply main_init_session_ok; eassumption.
  - eapply main_iteration_session_ok; eassumption.
Qed.

End SessionInvariant.

Lemma second_game_reachable : reachable counting_draws second_game.
Proof.
  apply (reach_iter counting_draws 3 [KEYDOWN K_UP] started_game
                    second_game 10).
  - apply (reach_init counting_draws 3 0). reflexivity.
  - reflexivity.
  - reflexivity.
Qed.

Lemma fed_game_reachable : reachable near_draws fed_game.
Proof.
  apply (reach_iter near_draws 3 [] 
           (mkGame (mkSnake [(20, 14)] UP None 1 0 1) (mkFood (0, 0))
                   false true 7) fed_game 10).
  - apply (reach_iter near_draws 3 []
             (mkGame (mkSnake [(20, 15)] UP (Some UP) 0 0 0)
                     (mkFood (20, 14)) false true 5) _ 10).
    + apply (reach_init near_draws 3 0). reflexivity.
    + reflexivity.
    + reflexivity.
  - reflexivity.
  - reflexivity.
Qed.

(** X3.  In every state the session reaches, the body of the snake is not
    empty, all its cells are cells of the grid, no cell occurs twice in
    it, and the food is on a cell of the grid. *)
Theorem reachable_body_sound (entropy : nat -> Z) (g : Game) :
  reachable entropy g ->
  positions (snake g) <> [] /\
  Forall (fun c => in_grid c = true) (positions (snake g)) /\
  NoDup (positions (snake g)) /\
  in_grid (position (food g)) = true.
Proof.
  intros R. destruct (reachable_session_ok entropy g R) as [[] Hf]. auto.
Qed.

Lemma reachable_body_sound_witness :
  NoDup (positions (snake fed_game)) /\
  in_grid (position (food fed_game)) = true.
Proof.
  pose proof (reachable_body_sound near_draws fed_game fed_game_reachable)
    as (_ & _ & Hnd & Hf).
  split; [exact Hnd | exact Hf].
Defined.

(** X4.  In every state the session reaches, the score is not negative,
    at most one cell of growth is pending, and the body has exactly
    [score + 1] cells less the pending one: every point scored becomes a
    cell of the body by the next move. *)
Theorem reachable_score_counts_cells (entropy : nat -> Z) (g : Game) :
  reachable entropy g ->
  0 <= score (snake g) /\
  0 <= grow_pending (snake g) <= 1 /\
  Z.of_nat (length (positions (snake g))) =
    score (snake g) + 1 - grow_pending (snake g).
Proof.
  intros R.
  destruct (reachable_session_ok entropy g R)
    as [[Hb _ _ _ _ Hp Hl _] _].
  split; [|split; assumption].
  destruct (positions (snake g)); [contradiction|]. cbn [length] in Hl. lia.
Qed.

Lemma reachable_score_counts_cells_witness :
  Z.of_nat (length (positions (snake fed_game))) =
    score (snake fed_game) + 1 - grow_pending (snake fed_game).
Proof.
  exact (proj2 (proj2 (reachable_score_counts_cells near_draws fed_game
                         fed_game_reachable))).
Defined.

(** ** The colour of the snake *)

Lemma get_color_in_range (s : Snake) :
  0 <= color_index s < 8 ->
  exists c, get_color s = Ok c /\
            nth_error SNAKE_COLORS (Z.to_nat (color_index s)) = Some c.
Proof.
  intros H. unfold get_color. rewrite palette_size.
  replace (color_index s <? 0) with false
    by (symmetry; apply Z.ltb_ge; lia).
  replace ((0 <=? color_index s) && (color_index s <? 8)) with true
    by (symmetry; apply andb_true_iff; split;
        [apply Z.leb_le | apply Z.ltb_lt]; lia).
  destruct (nth_error SNAKE_COLORS (Z.to_nat (color_index s))) as [c|] eqn:E.
  - exists c. auto.
  - apply nth_error_None in E. cbn [length SNAKE_COLORS] in E. lia.
Qed.

(** X5.  In every state the session reaches, the colour index is the
    number of tens in the score, modulo the 8 colours of the palette, and
    [get_color] returns that entry of [SNAKE_COLORS] without raising. *)
Theorem reachable_color_follows_score (entropy : nat -> Z) (g : Game) :
  reachable entropy g ->
  color_index (snake g) = (score (snake g) / 10) mod 8 /\
  exists c, get_color (snake g) = Ok c /\
            nth_error SNAKE_COLORS
                      (Z.to_nat ((score (snake g) / 10) mod 8)) = Some c.
Proof.
  intros R.
  destruct (reachable_session_ok entropy g R) as [[_ _ _ _ _ _ _ Hc] _].
  split; [assumption|]. rewrite <- Hc. apply get_color_in_range.
  rewrite Hc. apply Z.mod_pos_bound. lia.
Qed.

Lemma reachable_color_follows_score_witness :
  color_index (snake fed_game) = (score (snake fed_game) / 10) mod 8.
Proof.
  exact (proj1 (reachable_color_follows_score near_draws fed_game
                  fed_game_reachable)).
Defined.

(** X6.  In every state the session reaches, the direction of the snake
    is one of [UP], [DOWN], [LEFT], [RIGHT] and so is the buffered one, if
    any; hence a call of [update] that returns [False] puts the head on one
    of the four cells next to the old head. *)
Theorem reachable_moves_one_cell (entropy : nat -> Z) (g : Game) :
  reachable entropy g ->
  is_direction (direction (snake g)) = true /\
  (forall d, next_direction (snake g) = Some d -> is_direction d = true) /\
  (forall s', update (snake g) = Ok (false, s') ->
     exists h t h' t',
       positions (snake g) = h :: t /\ positions s' = h' :: t' /\
       Z.abs (fst h' - fst h) + Z.abs (snd h' - snd h) = 1).
Proof.
  intros R.
  destruct (reachable_session_ok entropy g R) as [Hok _].
  split; [apply Hok|]. split; [apply Hok|].
  intros s' U.
  destruct (update_snake_ok _ _ _ Hok U) as [[_ _ _ Hdir' _ _ _ _] _].
  destruct (update_inv _ _ _ U) as (h & t & Hp & [C | M]).
  { destruct C as (C & _). discriminate C. }
  destruct M as (_ & Hs' & _).
  destruct (update_direction _ _ _ U) as [Ed _].
  assert (Hpos : positions s' <> []) by (eapply update_keeps_nonempty; eauto).
  assert (Hhead : exists t', positions s' =
                               step_cell h (direction s') :: t').
  { rewrite Ed, Hs'.
    rewrite move_snake_positions
      by (rewrite turn_positions, Hp; discriminate).
    destruct (0 <? grow_pending (turn (snake g))); eauto. }
  destruct Hhead as [t' Ht'].
  exists h, t, (step_cell h (direction s')), t'.
  split; [assumption|]. split; [assumption|].
  apply is_direction_cases in Hdir'.
  destruct h as [x y]. unfold step_cell; cbn [fst snd].
  destruct Hdir' as [-> | [-> | [-> | ->]]]; cbn [fst snd UP DOWN LEFT RIGHT];
    lia.
Qed.

Lemma reachable_moves_one_cell_witness :
  is_direction (direction (snake fed_game)) = true /\
  exists h t h' t',
    positions (snake fed_game) = h :: t /\
    positions (mkSnake [(20, 12); (20, 13)] UP None 1 0 0) = h' :: t' /\
    Z.abs (fst h' - fst h) + Z.abs (snd h' - snd h) = 1.
Proof.
  pose proof (reachable_moves_one_cell near_draws fed_game
                fed_game_reachable) as (Hd & _ & Hm).
  split; [exact Hd|].
  exact (Hm (mkSnake [(20, 12); (20, 13)] UP None 1 0 0) eq_refl).
Defined.

(** ** A fresh snake *)

(** X8.  [reset] always returns, consuming one draw: the snake it gives
    has the centre cell (20,15) as its whole body, one of the four
    directions both as direction and in the buffer, and score, colour and
    pending growth 0.  The first [update] of that snake never collides: it
    moves the single cell one step and empties the buffer. *)
Theorem reset_then_first_update (entropy : nat -> Z) (cur : nat) :
  exists d,
    is_direction d = true /\
    reset entropy cur = Ok (mkSnake [(20, 15)] d (Some d) 0 0 0, S cur) /\
    update (mkSnake [(20, 15)] d (Some d) 0 0 0) =
      Ok (false, mkSnake [step_cell (20, 15) d] d None 0 0 0).
Proof.
  destruct (reset_shape entropy cur) as (d & Hd & Hr).
  exists d. split; [assumption|]. split; [assumption|].
  apply is_direction_cases in Hd.
  destruct Hd as [-> | [-> | [-> | ->]]]; reflexivity.
Qed.

(** ** Events and the loop *)

Lemma game_eta (g : Game) :
  g = mkGame (snake g) (food g) (game_over g) (running g) (cursor g).
Proof. destruct g; reflexivity. Qed.

Lemma change_direction_twice (s : Snake) (d1 d2 : Vec) :
  change_direction (change_direction s d1) d2 = change_direction s d2.
Proof. reflexivity. Qed.

Lemma last_arrow_acc (events : list event) :
  forall acc,
    last_arrow acc events =
      match last_arrow None events with
      | Some d => Some d
      | None => acc
      end.
Proof.
  induction events as [|e rest IH]; intros acc; [reflexivity|].
  destruct e as [|k|]; cbn [last_arrow]; try apply IH.
  destruct (key_direction k) as [d|]; [|apply IH].
  rewrite (IH (Some d)), (IH (Some d)) at 1.
  destruct (last_arrow None rest); reflexivity.
Qed.

Section Events.

Variable entropy : nat -> Z.

(** While the game is not over a batch of events only touches the buffer
    and the running flag. *)
Lemma handle_events_playing (fuel : nat) (events : list event) :
  forall g,
    game_over g = false ->
    handle_events entropy fuel g events =
      Ok (mkGame
            (match last_arrow None events with
             | Some d => change_direction (snake g) d
             | None => snake g
             end)
            (food g) false
            (running g && negb (existsb is_quit events)) (cursor g)).
Proof.
  induction events as [|e rest IH]; intros g Hplay.
  - cbn [handle_events last_arrow existsb negb]. rewrite andb_true_r.
    rewrite (game_eta g) at 1. rewrite Hplay. reflexivity.
  - cbn [handle_events]. destruct e as [|k|].
    + cbn [handle_event bind].
      rewrite (IH (stop_running g)) by exact Hplay.
      cbn [last_arrow existsb is_quit stop_running snake food running
           cursor orb negb]. rewrite andb_false_r. reflexivity.
    + assert (K : handle_event entropy fuel g (KEYDOWN k) =
                  Ok (match key_direction k with
                      | Some d => with_snake g (change_direction (snake g) d)
                      | None => g
                      end)).
      { cbn [handle_event]. rewrite Hplay. destruct k; reflexivity. }
      rewrite K. cbn [bind last_arrow existsb is_quit orb].
      destruct (key_direction k) as [d|].
      * rewrite IH by exact Hplay.
        cbn [with_snake snake food running cursor].
        rewrite (last_arrow_acc rest (Some d)).
        destruct (last_arrow None rest); reflexivity.
      * apply IH, Hplay.
    + cbn [handle_event bind last_arrow existsb is_quit orb].
      apply IH, Hplay.
Qed.

Lemma game_logic_direction (fuel : nat) (g g' : Game) :
  game_logic entropy fuel g = Ok g' ->
  game_over g = false ->
  direction (snake g') = direction (turn (snake g)).
Proof.
  unfold game_logic. intros H Hplay. rewrite Hplay in H. cbn [negb] in H.
  destruct (update (snake g)) as [[flag s]| |] eqn:U; cbn [bind fst snd] in H;
    try discriminate.
  destruct (update_direction _ _ _ U) as [Ed _].
  destruct flag; cbn [negb] in H.
  { injection H as <-. exact Ed. }
  destruct (get_head_position s) as [head| |]; cbn [bind] in H;
    try discriminate.
  destruct (cell_eqb head (get_position (food g))).
  - destruct (randomize_position entropy fuel (positions (grow s)) (cursor g))
      as [fc| |]; cbn [bind] in H; try discriminate.
    injection H as <-. exact Ed.
  - injection H as <-. exact Ed.
Qed.

End Events.

(** X9.  While the game is not over, a batch of events changes nothing
    but the buffered direction, which becomes that of the last arrow key
    of the batch (earlier ones are overwritten), and the running flag,
    which a window-close event clears; it never fails.  So when the last
    arrow key of the batch is the opposite of the current direction, the
    pass leaves the direction as it was, whatever turn came earlier in the
    batch. *)
Theorem last_arrow_key_wins (entropy : nat -> Z) (fuel : nat)
        (events : list event) (g : Game) :
  game_over g = false ->
  handle_events entropy fuel g events =
    Ok (mkGame
          (match last_arrow None events with
           | Some d => change_direction (snake g) d
           | None => snake g
           end)
          (food g) false
          (running g && negb (existsb is_quit events)) (cursor g)) /\
  (last_arrow None events = Some (negate (direction (snake g))) ->
   forall g' fps,
     main_iteration entropy fuel events g = Ok (g', fps) ->
     direction (snake g') = direction (snake g)).
Proof.
  intros Hplay.
  pose proof (handle_events_playing entropy fuel events g Hplay) as HE.
  split; [exact HE|].
  intros Hlast g' fps. unfold main_iteration. rewrite HE, Hlast.
  cbn [bind].
  destruct (game_logic entropy fuel _) as [g2| |] eqn:L; cbn [bind];
    try discriminate.
  intros [= <- _].
  rewrite (game_logic_direction entropy fuel _ g2 L eq_refl).
  cbn [snake]. rewrite turn_reversal; reflexivity.
Qed.

Lemma last_arrow_key_wins_witness :
  handle_events zero_draws 3 playing_game
                [KEYDOWN K_UP; KEYDOWN K_q; KEYDOWN K_LEFT] =
    Ok (mkGame (mkSnake [(20, 15); (19, 15)] RIGHT (Some LEFT) 12 1 0)
               (mkFood (21, 15)) false true 0) /\
  RIGHT = direction (snake playing_game).
Proof.
  pose proof (last_arrow_key_wins zero_draws 3
                [KEYDOWN K_UP; KEYDOWN K_q; KEYDOWN K_LEFT] playing_game
                eq_refl) as [HE Hkeep].
  split; [exact HE|].
  exact (Hkeep eq_refl
           (mkGame (mkSnake [(21, 15); (20, 15)] RIGHT (Some LEFT) 13 1 1)
                   (mkFood (0, 0)) false true 2) 12 eq_refl).
Defined.

Section Loop.

Variable entropy : nat -> Z.

Lemma handle_events_over (fuel : nat) (events : list event) :
  forall g,
    game_over g = true ->
    existsb is_restart events = false ->
    exists r,
      handle_events entropy fuel g events =
        Ok (mkGame (snake g) (food g) true r (cursor g)) /\
      (r = true -> running g = true).
Proof.
  induction events as [|e rest IH]; intros g Hover Hno.
  - exists (running g). cbn [handle_events]. split; [|auto].
    rewrite (game_eta g) at 1. rewrite Hover. reflexivity.
  - cbn [existsb] in Hno. apply orb_false_iff in Hno. destruct Hno as [He Hr].
    cbn [handle_events].
    assert (K : handle_event entropy fuel g e = Ok g \/
                handle_event entropy fuel g e = Ok (stop_running g)).
    { destruct e as [|k|]; cbn [handle_event]; auto.
      rewrite Hover. destruct k; auto. discriminate He. }
    destruct K as [-> | ->]; cbn [bind].
    + apply IH; assumption.
    + destruct (IH (stop_running g) Hover Hr) as (r & HE & Hrun).
      exists r. split; [exact HE|].
      intros Hr'. apply Hrun in Hr'. discriminate Hr'.
Qed.

Lemma handle_event_running (fuel : nat) (g g' : Game) (e : event) :
  handle_event entropy fuel g e = Ok g' ->
  running g' = true -> running g = true /\ is_quit e = false.
Proof.
  destruct e as [|k|]; cbn [handle_event].
  - intros [= <-]. discriminate.
  - destruct (game_over g).
    + destruct k; try (intros [= <-]; auto; discriminate).
      destruct (reset entropy (cursor g)) as [sc| |]; cbn [bind];
        try discriminate.
      destruct (randomize_position entropy fuel (positions (fst sc)) (snd sc))
        as [fc| |]; cbn [bind]; try discriminate.
      intros [= <-]. auto.
    + destruct k; intros [= <-]; auto.
  - intros [= <-]. auto.
Qed.

Lemma handle_events_running (fuel : nat) (events : list event) :
  forall g g',
    handle_events entropy fuel g events = Ok g' ->
    running g' = true ->
    running g = true /\ existsb is_quit events = false.
Proof.
  induction events as [|e rest IH]; intros g g'; cbn [handle_events].
  - intros [= <-]. auto.
  - destruct (handle_event entropy fuel g e) as [g1| |] eqn:E; cbn [bind];
      try discriminate.
    intros H Hrun. destruct (IH g1 g' H Hrun) as [Hr1 Hq].
    destruct (handle_event_running fuel g g1 e E Hr1) as [Hr He].
    split; [assumption|]. cbn [existsb]. rewrite He, Hq. reflexivity.
Qed.

Lemma game_logic_running (fuel : nat) (g g' : Game) :
  game_logic entropy fuel g = Ok g' -> running g' = running g.
Proof.
  unfold game_logic. destruct (negb (game_over g)); [|intros [= <-]; auto].
  destruct (update (snake g)) as [[flag s]| |]; cbn [bind fst snd];
    try discriminate.
  destruct (negb flag); [|intros [= <-]; auto].
  destruct (get_head_position s) as [head| |]; cbn [bind]; try discriminate.
  destruct (cell_eqb head (get_position (food g))); [|intros [= <-]; auto].
  destruct (randomize_position entropy fuel (positions (grow s)) (cursor g))
    as [fc| |]; cbn [bind]; try discriminate.
  intros [= <-]. auto.
Qed.

End Loop.

(** X10.  Once the game is over everything is frozen until a restart: a
    pass of the loop whose events hold no restart key always returns, and
    returns the same snake, food, flag and generator state; only the
    running flag can change, and only to false. *)
Theorem game_over_freezes (entropy : nat -> Z) (fuel : nat)
        (events : list event) (g : Game) :
  game_over g = true ->
  existsb is_restart events = false ->
  exists r,
    main_iteration entropy fuel events g =
      Ok (mkGame (snake g) (food g) true r (cursor g),
          current_fps (score (snake g))) /\
    (r = true -> running g = true).
Proof.
  intros Hover Hno.
  destruct (handle_events_over entropy fuel events g Hover Hno)
    as (r & HE & Hrun).
  exists r. split; [|exact Hrun].
  unfold main_iteration. rewrite HE. reflexivity.
Qed.

Lemma game_over_freezes_witness :
  exists r,
    main_iteration zero_draws 0 [KEYDOWN K_UP; KEYDOWN K_q]
                   (mkGame (square_snake 1) (mkFood (0, 0)) true true 9) =
      Ok (mkGame (square_snake 1) (mkFood (0, 0)) true r 9, 10) /\
    (r = true -> true = true).
Proof.
  exact (game_over_freezes zero_draws 0 [KEYDOWN K_UP; KEYDOWN K_q]
           (mkGame (square_snake 1) (mkFood (0, 0)) true true 9)
           eq_refl eq_refl).
Defined.

(** X11.  The running flag is never set again once cleared, and a
    window-close event clears it: a pass whose events hold one ends with
    the flag false, after its tick has still been played, and the loop
    stops there, whatever events would have followed. *)
Theorem quit_stops_loop (entropy : nat -> Z) (fuel : nat)
        (events : list event) (g g' : Game) (fps : Z) :
  main_iteration entropy fuel events g = Ok (g', fps) ->
  (running g' = true -> running g = true /\ existsb is_quit events = false) /\
  (running g = true -> existsb is_quit events = true ->
   running g' = false /\
   forall rest, main_loop entropy fuel (events :: rest) g = Ok g').
Proof.
  intros H.
  assert (Mono : running g' = true ->
                 running g = true /\ existsb is_quit events = false).
  { revert H. unfold main_iteration.
    destruct (handle_events entropy fuel g events) as [g1| |] eqn:E;
      cbn [bind]; try discriminate.
    destruct (game_logic entropy fuel g1) as [g2| |] eqn:L;
      cbn [bind]; try discriminate.
    intros [= <- _] Hrun.
    rewrite (game_logic_running entropy fuel g1 g2 L) in Hrun.
    exact (handle_events_running entropy fuel events g g1 E Hrun). }
  split; [exact Mono|].
  intros Hrun Hquit.
  assert (Hstop : running g' = false).
  { destruct (running g') eqn:R; [|reflexivity].
    destruct (Mono eq_refl) as [_ Hq]. congruence. }
  split; [exact Hstop|].
  intros rest. cbn [main_loop]. rewrite Hrun, H. cbn [bind fst].
  destruct rest; cbn [main_loop]; [reflexivity|].
  rewrite Hstop. reflexivity.
Qed.

Lemma quit_stops_loop_witness :
  main_loop counting_draws 3
            [[KEYDOWN K_UP; QUIT]; [KEYDOWN K_LEFT]; []] started_game =
    Ok (mkGame (mkSnake [(20, 14)] UP None 0 0 0) (mkFood (3, 4))
               false false 5).
Proof.
  exact (proj2 (proj2 (quit_stops_loop counting_draws 3 [KEYDOWN K_UP; QUIT]
                         started_game
                         (mkGame (mkSnake [(20, 14)] UP None 0 0 0)
                                 (mkFood (3, 4)) false false 5)
                         10 eq_refl)
                  eq_refl eq_refl)
           [[KEYDOWN K_LEFT]; []]).
Defined.

(** ** What a tick does to score and food *)

(** X12.  A tick played while the game is not over ends in one of three
    ways.  The snake collides: the game is over, and body, score and food
    are as before.  The snake moves and its head is not on the food:
    score and food are as before and no draw is consumed.  The snake moves
    and its head is on the food: the score goes up by exactly 1 and the
    food is moved to a cell off the snake. *)
Theorem tick_scores_on_food (entropy : nat -> Z) (fuel : nat) (g g' : Game) :
  game_over g = false ->
  game_logic entropy fuel g = Ok g' ->
  (game_over g' = true /\
   positions (snake g') = positions (snake g) /\
   score (snake g') = score (snake g) /\
   food g' = food g /\ cursor g' = cursor g) \/
  (game_over g' = false /\
   get_head_position (snake g') <> Ok (position (food g)) /\
   score (snake g') = score (snake g) /\
   food g' = food g /\ cursor g' = cursor g) \/
  (game_over g' = false /\
   get_head_position (snake g') = Ok (position (food g)) /\
   score (snake g') = score (snake g) + 1 /\
   ~ In (position (food g')) (positions (snake g')) /\
   (cursor g < cursor g')%nat).
Proof.
  intros Hplay. unfold game_logic. rewrite Hplay. cbn [negb].
  destruct (update (snake g)) as [[flag s]| |] eqn:U; cbn [bind fst snd];
    try discriminate.
  destruct (update_score_color _ _ _ U) as [Es _].
  destruct flag; cbn [negb].
  { intros [= <-]. left. cbn [game_over snake food cursor].
    destruct (update_inv _ _ _ U) as (h & t & _ & [C | M]).
    - destruct C as (_ & -> & _). rewrite turn_positions. auto.
    - destruct M as (M & _). discriminate M. }
  destruct (get_head_position s) as [head| |] eqn:Hh; cbn [bind];
    try discriminate.
  destruct (cell_eqb head (get_position (food g))) eqn:Heat.
  - destruct (randomize_position entropy fuel (positions (grow s)) (cursor g))
      as [[f cur']| |] eqn:R; cbn [bind]; try discriminate.
    intros [= <-]. right. right. cbn [game_over snake food cursor fst snd].
    apply cell_eqb_eq in Heat. unfold get_position in Heat.
    split; [reflexivity|]. split; [|split; [|split]].
    + change (get_head_position (grow s)) with (get_head_position s).
      rewrite Hh, Heat. reflexivity.
    + rewrite grow_score, Es. reflexivity.
    + exact (randomize_position_free entropy fuel _ _ (f, cur') R).
    + apply randomize_position_ok in R.
      destruct R as (k & _ & _ & -> & _). lia.
  - intros [= <-]. right. left. cbn [game_over snake food cursor].
    apply cell_eqb_neq in Heat. unfold get_position in Heat.
    split; [reflexivity|]. split; [|auto].
    rewrite Hh. intros [= E]. contradiction.
Qed.

Lemma tick_scores_on_food_witness :
  game_logic counting_draws 3 playing_game =
    Ok (mkGame (mkSnake [(21, 15); (20, 15)] RIGHT None 13 1 1)
               (mkFood (0, 1)) false true 2) /\
  13 = score (snake playing_game) + 1 /\
  ~ In (0, 1) [(21, 15); (20, 15)].
Proof.
  split; [reflexivity|].
  destruct (tick_scores_on_food counting_draws 3 playing_game
              (mkGame (mkSnake [(21, 15); (20, 15)] RIGHT None 13 1 1)
                      (mkFood (0, 1)) false true 2)
              eq_refl eq_refl)
    as [(H & _) | [(_ & H & _) | (_ & _ & Hs & Hf & _)]].
  - discriminate H.
  - exfalso. apply H. reflexivity.
  - split; [exact Hs | exact Hf].
Defined.

(** ** Indexing the palette *)

(** X13.  [get_color] indexes the palette as Python does: for a colour
    index from 0 to 7 it returns that entry; for one from -8 to -1 it
    counts from the end and returns the entry at the index plus 8; for
    any other index it raises [IndexError].  [grow] never takes a valid
    index out of the range 0..7. *)
Theorem get_color_index_range (s : Snake) :
  (0 <= color_index s < 8 ->
   exists c, get_color s = Ok c /\
             nth_error SNAKE_COLORS (Z.to_nat (color_index s)) = Some c) /\
  (-8 <= color_index s < 0 ->
   exists c, get_color s = Ok c /\
             nth_error SNAKE_COLORS (Z.to_nat (color_index s + 8)) = Some c) /\
  (color_index s < -8 \/ 8 <= color_index s ->
   get_color s = Raise IndexError) /\
  (0 <= color_index s < 8 -> 0 <= color_index (grow s) < 8).
Proof.
  split; [apply get_color_in_range|]. split; [|split].
  - intros H. unfold get_color. rewrite palette_size.
    replace (color_index s <? 0) with true
      by (symmetry; apply Z.ltb_lt; lia).
    replace ((0 <=? color_index s + 8) && (color_index s + 8 <? 8)) with true
      by (symmetry; apply andb_true_iff; split;
          [apply Z.leb_le | apply Z.ltb_lt]; lia).
    destruct (nth_error SNAKE_COLORS (Z.to_nat (color_index s + 8)))
      as [c|] eqn:E.
    + exists c. auto.
    + apply nth_error_None in E. cbn [length SNAKE_COLORS] in E. lia.
  - intros H. unfold get_color. rewrite palette_size.
    destruct (color_index s <? 0) eqn:N.
    + apply Z.ltb_lt in N.
      replace (0 <=? color_index s + 8) with false
        by (symmetry; apply Z.leb_gt; lia).
      reflexivity.
    + apply Z.ltb_ge in N.
      replace (color_index s <? 8) with false
        by (symmetry; apply Z.ltb_ge; lia).
      rewrite andb_false_r. reflexivity.
  - intros H. rewrite grow_color.
    destruct ((0 <? score s + 1) && ((score s + 1) mod 10 =? 0));
      [apply Z.mod_pos_bound; lia | assumption].
Qed.

Lemma get_color_index_range_witness :
  (exists c, get_color (mkSnake [(3, 3)] UP None 0 (-1) 0) = Ok c /\
             Some (255, 105, 180) = Some c) /\
  get_color (mkSnake [(3, 3)] UP None 0 8 0) = Raise IndexError.
Proof.
  split.
  - apply (proj1 (proj2 (get_color_index_range
                           (mkSnake [(3, 3)] UP None 0 (-1) 0)))).
    cbn [color_index]. lia.
  - apply (proj1 (proj2 (proj2 (get_color_index_range
                                  (mkSnake [(3, 3)] UP None 0 8 0))))).
    cbn [color_index]. lia.
Defined.

(** * Properties of the drawing functions *)





Lemma draw_segments_length (c : Color) (i : nat) (ps : list Cell) :
  length (draw_segments c i ps) = length ps.
Proof.
  revert i. induction ps as [|p ps IH]; intros i; [reflexivity|].
  cbn [draw_segments length]. f_equal. apply IH.
Qed.

Lemma draw_segments_cells (c : Color) (ps : list Cell) :
  forall i col r,
    In (FilledRect col r) (draw_segments c i ps) ->
    exists p, In p ps /\ r = cell_rect p.
Proof.
  induction ps as [|p ps IH]; intros i col r; [intros []|].
  cbn [draw_segments]. intros [[= _ <-] | H].
  - exists p. split; [left|]; reflexivity.
  - destruct (IH _ _ _ H) as (q & Hq & ->).
    exists q. split; [right; assumption | reflexivity].
Qed.



(** ** Squares of cells *)

Lemma cell_rect_on_screen (c : Cell) :
  in_grid c = true -> on_screen (cell_rect c) = true.
Proof.
  destruct c as [x y]. unfold in_grid, on_screen, cell_rect; cbn [fst snd].
  change GRID_WIDTH with 40. change GRID_HEIGHT with 30.
  change GRID_SIZE with 20. change SCREEN_WIDTH with 800.
  change SCREEN_HEIGHT with 600.
  rewrite !andb_true_iff, !Z.leb_le, !Z.ltb_lt. lia.
Qed.

Lemma cell_rect_overlap (c1 c2 : Cell) :
  rects_overlap (cell_rect c1) (cell_rect c2) = true <-> c1 = c2.
Proof.
  destruct c1 as [x1 y1], c2 as [x2 y2].
  unfold rects_overlap, cell_rect; cbn [fst snd]. change GRID_SIZE with 20.
  rewrite !andb_true_iff, !Z.ltb_lt. split.
  - intros H. f_equal; lia.
  - intros [= -> ->]. lia.
Qed.



Lemma reachable_food_free (entropy : nat -> Z) (g : Game) :
  reachable entropy g -> food_free g.
Proof.
  intros R. induction R as [fuel cur g H | fuel events g g' fps _ IH _ H].
  - eapply main_init_food_free; eassumption.
  - eapply main_iteration_food_free; eassumption.
Qed.

(** X16.  In every state the session reaches with the game not over, what
    [draw_snake] and [draw_food] draw never collides: every square of the
    snake and the square of the food lie on the screen, and the square of
    the food shares no pixel with any square of the snake. *)
Theorem food_drawn_clear_of_snake (entropy : nat -> Z) (g : Game) :
  reachable entropy g ->
  game_over g = false ->
  exists cmds,
    draw_snake (snake g) = Ok cmds /\
    length cmds = length (positions (snake g)) /\
    forall colf rf, In (FilledRect colf rf) (draw_food (food g)) ->
      on_screen rf = true /\
      forall col r, In (FilledRect col r) cmds ->
        on_screen r = true /\ rects_overlap rf r = false.
Proof.
  intros R Hplay.
  destruct (reachable_session_ok entropy g R) as [Hok Hfood].
  pose proof (reachable_food_free entropy g R Hplay) as Hfree.
  destruct (get_color_in_range (snake g)) as (c & Hc & _).
  { rewrite (ok_color _ Hok). apply Z.mod_pos_bound. lia. }
  exists (draw_segments c 0 (positions (snake g))).
  split; [unfold draw_snake; rewrite Hc; reflexivity|].
  split.
  { apply draw_segments_length. }
  intros colf rf [[= _ <-] | []]. unfold get_position.
  split; [apply cell_rect_on_screen; assumption|].
  intros col r Hin.
  destruct (draw_segments_cells _ _ _ _ _ Hin) as (p & Hp & ->).
  split.
  - apply cell_rect_on_screen.
    pose proof (ok_grid _ Hok) as G. rewrite Forall_forall in G.
    apply G, Hp.
  - destruct (rects_overlap (cell_rect (position (food g))) (cell_rect p))
      eqn:O; [|reflexivity].
    apply cell_rect_overlap in O. subst p. contradiction.
Qed.

Lemma food_drawn_clear_of_snake_witness :
  exists cmds,
    draw_snake (snake fed_game) = Ok cmds /\
    length cmds = 2%nat /\
    forall colf rf, In (FilledRect colf rf) (draw_food (food fed_game)) ->
      on_screen rf = true /\
      forall col r, In (FilledRect col r) cmds ->
        on_screen r = true /\ rects_overlap rf r = false.
Proof.
  exact (food_drawn_clear_of_snake near_draws fed_game fed_game_reachable
           eq_refl).
Defined.

(** ** The grid lines *)

Lemma range_step_In (start stop step v : Z) :
  0 < step ->
  In v (range_step start stop step) <->
  exists i : nat, v = start + Z.of_nat i * step /\ v < stop.
Proof.
  intros Hstep. unfold range_step. rewrite in_map_iff. split.
  - intros (i & <- & Hi). exists i. split; [reflexivity|].
    apply in_seq in Hi.
    assert (Z.of_nat i < (stop - start + step - 1) / step) by lia.
    Z.div_mod_to_equations. nia.
  - intros (i & -> & Hlt). exists i. split; [reflexivity|].
    apply in_seq. split; [lia|]. cbn [Nat.add].
    assert (Z.of_nat i < (stop - start + step - 1) / step).
    { Z.div_mod_to_equations. nia. }
    lia.
Qed.

(** X17.  [draw_grid] draws 70 lines, all in the grid colour: for each
    row of cells a horizontal line across the screen along its top edge,
    and for each column a vertical line down the screen along its left
    edge.  Nothing else is drawn; in particular the bottom and right edges
    of the screen get no line. *)
Theorem draw_grid_lines :
  length draw_grid = 70%nat /\
  (forall c, in_grid c = true ->
     In (Line COLOR_GRID (0, snd c * GRID_SIZE) (SCREEN_WIDTH, snd c * GRID_SIZE))
        draw_grid /\
     In (Line COLOR_GRID (fst c * GRID_SIZE, 0) (fst c * GRID_SIZE, SCREEN_HEIGHT))
        draw_grid) /\
  (forall cmd, In cmd draw_grid ->
     exists k,
       0 <= k /\
       ((k < GRID_HEIGHT /\
         cmd = Line COLOR_GRID (0, k * GRID_SIZE) (SCREEN_WIDTH, k * GRID_SIZE)) \/
        (k < GRID_WIDTH /\
         cmd = Line COLOR_GRID (k * GRID_SIZE, 0) (k * GRID_SIZE, SCREEN_HEIGHT)))).
Proof.
  split; [reflexivity|]. split.
  - intros [x y] H. unfold in_grid in H; cbn [fst snd] in *.
    rewrite !andb_true_iff, !Z.leb_le, !Z.ltb_lt in H.
    change GRID_WIDTH with 40 in H. change GRID_HEIGHT with 30 in H.
    unfold draw_grid. split; apply in_or_app; [left | right];
      apply in_map_iff.
    + exists (y * GRID_SIZE). split; [reflexivity|].
      apply range_step_In; [reflexivity|].
      exists (Z.to_nat y). change GRID_SIZE with 20.
      change SCREEN_HEIGHT with 600. lia.
    + exists (x * GRID_SIZE). split; [reflexivity|].
      apply range_step_In; [reflexivity|].
      exists (Z.to_nat x). change GRID_SIZE with 20.
      change SCREEN_WIDTH with 800. lia.
  - intros cmd H. unfold draw_grid in H. apply in_app_or in H.
    destruct H as [H | H]; apply in_map_iff in H;
      destruct H as (v & <- & Hv);
      apply range_step_In in Hv; try reflexivity;
      destruct Hv as (i & -> & Hlt); exists (Z.of_nat i);
      (split; [lia|]).
    + left. change GRID_SIZE with 20 in *. change SCREEN_HEIGHT with 600 in *.
      change GRID_HEIGHT with 30. split; [lia | reflexivity].
    + right. change GRID_SIZE with 20 in *. change SCREEN_WIDTH with 800 in *.
      change GRID_WIDTH with 40. split; [lia | reflexivity].
Qed.

Lemma draw_grid_lines_witness :
  In (Line COLOR_GRID (0, 580) (800, 580)) draw_grid /\
  In (Line COLOR_GRID (780, 0) (780, 600)) draw_grid.
Proof.
  exact (proj1 (proj2 draw_grid_lines) (39, 29) eq_refl).
Defined.

(** ** Restart *)

(** X18.  A restart key pressed when the game is over never raises, and
    when it returns the session is in play again with a fresh snake: the
    centre cell as whole body, one of the four directions, score, colour
    and pending growth 0.  The running flag is kept, the food is on a cell
    of the grid other than the centre, and draws have been consumed. *)
Theorem restart_resets (entropy : nat -> Z) (fuel : nat) (g : Game) :
  game_over g = true ->
  (forall e, handle_event entropy fuel g (KEYDOWN K_r) <> Raise e) /\
  (forall g', handle_event entropy fuel g (KEYDOWN K_r) = Ok g' ->
     (exists d, is_direction d = true /\
                snake g' = mkSnake [(20, 15)] d (Some d) 0 0 0) /\
     game_over g' = false /\ running g' = running g /\
     in_grid (position (food g')) = true /\
     position (food g') <> (20, 15) /\
     (cursor g < cursor g')%nat).
Proof.
  intros Hover. cbn [handle_event]. rewrite Hover.
  destruct (reset_shape entropy (cursor g)) as (d & Hd & ->).
  cbn [bind fst snd positions].
  pose proof (randomize_position_no_raise entropy [(20, 15)] fuel
                (S (cursor g))) as NR.
  destruct (randomize_position entropy fuel [(20, 15)] (S (cursor g)))
    as [[f cur']| |] eqn:R; cbn [bind fst snd].
  - split; [discriminate|]. intros g' [= <-].
    cbn [snake food game_over running cursor].
    split; [exists d; auto|]. split; [reflexivity|]. split; [reflexivity|].
    split; [exact (randomize_position_in_grid entropy _ _ _ (f, cur') R)|].
    split.
    + pose proof (randomize_position_free entropy _ _ _ (f, cur') R) as F.
      cbn [fst] in F. intros E. apply F. left. symmetry. exact E.
    + apply randomize_position_ok in R.
      destruct R as (k & _ & _ & -> & _). lia.
  - exfalso. exact (NR e eq_refl).
  - split; discriminate.
Qed.

Lemma restart_resets_witness :
  handle_event counting_draws 2
               (mkGame (square_snake 1) (mkFood (0, 0)) true true 9)
               (KEYDOWN K_r) =
    Ok (mkGame (mkSnake [(20, 15)] DOWN (Some DOWN) 0 0 0) (mkFood (10, 11))
               false true 12) /\
  (10, 11) <> (20, 15).
Proof.
  split; [reflexivity|].
  destruct (proj2 (restart_resets counting_draws 2
                     (mkGame (square_snake 1) (mkFood (0, 0)) true true 9)
                     eq_refl)
              (mkGame (mkSnake [(20, 15)] DOWN (Some DOWN) 0 0 0)
                      (mkFood (10, 11)) false true 12)
              eq_refl) as (_ & _ & _ & _ & Hne & _).
  exact Hne.
Defined.

(** * Further properties of [update] and of the loop *)

(** X19.  [update] raises [IndexError] exactly on a snake with an empty
    body, where it has no head to read; on every other snake it returns a
    flag and a snake. *)
Theorem update_raises_iff_empty (s : Snake) :
  (update s = Raise IndexError <-> positions s = []) /\
  (positions s <> [] <-> exists flag s', update s = Ok (flag, s')).
Proof.
  assert (E : positions s = [] -> update s = Raise IndexError).
  { intros H. unfold update, get_head_position.
    rewrite turn_positions, H. reflexivity. }
  split; split.
  - intros H. destruct (positions s) as [|h t] eqn:Hp; [reflexivity|].
    destruct (update_total s) as (flag & s' & U);
      [rewrite Hp; discriminate | congruence].
  - exact E.
  - apply update_total.
  - intros (flag & s' & U) Hp. rewrite (E Hp) in U. discriminate U.
Qed.

(** ** Pending growth is paid one cell per move *)

(** X20.  Starting with [k >= 0] cells of growth pending, [n] calls of
    [update] that all return [False] lengthen the body by [min n k] cells
    and leave [k - min n k] pending: one cell per move until nothing is
    pending, and none afterwards. *)
Theorem growth_paid_per_move (n : nat) (s s' : Snake) :
  0 <= grow_pending s ->
  moves n s s' ->
  Z.of_nat (length (positions s')) =
    Z.of_nat (length (positions s)) + Z.min (Z.of_nat n) (grow_pending s) /\
  grow_pending s' = grow_pending s - Z.min (Z.of_nat n) (grow_pending s).
Proof.
  intros Hk Hm. induction Hm as [s | n s s1 s2 U _ IH]; [lia|].
  apply update_length in U.
  destruct (0 <? grow_pending s) eqn:E; destruct U as [Ul Ug].
  - apply Z.ltb_lt in E. destruct IH as [IHl IHg]; [lia|].
    rewrite IHl, IHg, Ul, Ug. lia.
  - apply Z.ltb_ge in E. destruct IH as [IHl IHg]; [lia|].
    rewrite IHl, IHg, Ul, Ug. lia.
Qed.

Lemma growth_paid_per_move_witness :
  moves 3 (grows 2 centre_snake)
        (mkSnake [(23, 15); (22, 15); (21, 15)] RIGHT None 2 0 0) /\
  3 = 1 + Z.min 3 2.
Proof.
  assert (M : moves 3 (grows 2 centre_snake)
                    (mkSnake [(23, 15); (22, 15); (21, 15)] RIGHT None 2 0 0)).
  { apply (moves_S 2 _ (mkSnake [(21, 15); (20, 15)] RIGHT None 2 0 1));
      [reflexivity|].
    apply (moves_S 1 _ (mkSnake [(22, 15); (21, 15); (20, 15)] RIGHT None
                                2 0 0)); [reflexivity|].
    apply (moves_S 0 _ (mkSnake [(23, 15); (22, 15); (21, 15)] RIGHT None
                                2 0 0)); [reflexivity|].
    apply moves_O. }
  split; [exact M|].
  exact (proj1 (growth_paid_per_move 3 (grows 2 centre_snake) _
                  ltac:(discriminate) M)).
Defined.

(** ** The loop only visits reachable states *)

Lemma main_loop_from_reachable (entropy : nat -> Z) (fuel : nat)
      (frames : list (list event)) :
  forall g g',
    reachable entropy g ->
    main_loop entropy fuel frames g = Ok g' -> reachable entropy g'.
Proof.
  induction frames as [|events rest IH]; intros g g' R; cbn [main_loop].
  - intros [= <-]. exact R.
  - destruct (running g) eqn:Hrun; [|intros [= <-]; exact R].
    destruct (main_iteration entropy fuel events g) as [[g1 fps]| |] eqn:I;
      cbn [bind fst]; try discriminate.
    apply IH. eapply reach_iter; eassumption.
Qed.

(** X21.  Whatever events each pass polls, a run of the main loop from
    the state [main] sets up ends, when it returns, in a state the session
    reaches; so all that holds of reachable states holds of it: the body
    is not empty and free of repeats, and while the game is not over the
    food is not on the snake. *)
Theorem main_loop_stays_sound (entropy : nat -> Z) (fuel : nat) (cur : nat)
        (frames : list (list event)) (g0 g : Game) :
  main_init entropy fuel cur = Ok g0 ->
  main_loop entropy fuel frames g0 = Ok g ->
  reachable entropy g /\
  positions (snake g) <> [] /\ NoDup (positions (snake g)) /\
  (game_over g = false -> ~ In (position (food g)) (positions (snake g))).
Proof.
  intros Hinit Hloop.
  assert (R : reachable entropy g).
  { eapply main_loop_from_reachable; [|eassumption].
    eapply reach_init; eassumption. }
  split; [exact R|].
  destruct (reachable_session_ok entropy g R) as [Hok _].
  split; [apply Hok|]. split; [apply Hok|].
  apply (reachable_food_free entropy g R).
Qed.

Lemma main_loop_stays_sound_witness :
  reachable near_draws fed_game /\
  positions (snake fed_game) <> [] /\ NoDup (positions (snake fed_game)) /\
  (game_over fed_game = false ->
   ~ In (position (food fed_game)) (positions (snake fed_game))).
Proof.
  exact (main_loop_stays_sound near_draws 3 0 [[]; []]
           (mkGame (mkSnake [(20, 15)] UP (Some UP) 0 0 0)
                   (mkFood (20, 14)) false true 5)
           fed_game eq_refl eq_refl).
Defined.
